(** * FreeBili: the CMS response parser and the streaming search of [main.py]

    A shallow embedding of [parse_cms_data], [fetch_and_process],
    [search_event_generator] and [update_config].

    Python strings are kept as byte strings (UTF-8); every delimiter the
    program looks for is ASCII, so splitting bytes and splitting code
    points agree.  Values decoded from JSON are kept dynamically typed, as
    the program receives them ([Dict[str, Any]]), and Python exceptions
    are explicit results. *)

From Stdlib Require Import List String Ascii Bool Arith ZArith Lia.
From Stdlib Require Import Permutation Sorted PrimFloat.
Import ListNotations.

Local Open Scope string_scope.
Local Open Scope list_scope.

(** ** Python's [str.split(sep)] *)

Module PyStr.

(** [split_go sep skip s] scans [s] from the left.  [skip] counts the
    characters of an already matched separator that are still to be
    jumped over, so matches are leftmost and do not overlap. *)
Fixpoint split_go (sep : string) (skip : nat) (s : string) : list string :=
  match s with
  | EmptyString => [EmptyString]
  | String c s' =>
      match skip with
      | S k => split_go sep k s'
      | O =>
          if prefix sep s
          then EmptyString :: split_go sep (String.length sep - 1) s'
          else match split_go sep 0 s' with
               | piece :: pieces => String c piece :: pieces
               | [] => [String c EmptyString]
               end
      end
  end.

(** [s.split(sep)] for a separator that is not empty (the program only
    uses the constants ["$$$"], ["#"] and ["$"]). *)
Definition split (sep s : string) : list string := split_go sep 0 s.

(** [s.split(sep)[0]] *)
Definition first_piece (sep s : string) : string :=
  hd EmptyString (split sep s).

(** [sep in s] *)
Fixpoint occurs (sep s : string) : bool :=
  match s with
  | EmptyString => prefix sep EmptyString
  | String _ s' => prefix sep s || occurs sep s'
  end.

(** [sep.join(pieces)] *)
Fixpoint join (sep : string) (pieces : list string) : string :=
  match pieces with
  | [] => EmptyString
  | [p] => p
  | p :: ps => p ++ sep ++ join sep ps
  end.

(** number of occurrences of the character [c] in [s] *)
Fixpoint count (c : ascii) (s : string) : nat :=
  match s with
  | EmptyString => 0
  | String d s' => (if Ascii.eqb c d then 1 else 0) + count c s'
  end.

End PyStr.

(** ** Values decoded by [response.json()] *)

#[warnings="-register-all"]
Inductive JSON : Type :=
| JNull
| JBool (b : bool)
| JInt (z : Z)
| JFloat (f : float)
| JStr (s : string)
| JArr (items : list JSON)
| JObj (fields : list (string * JSON)).

(** A Python [dict] with string keys, as an association list read from
    the front. *)
Definition dict := list (string * JSON).

Fixpoint lookup (key : string) (d : dict) : option JSON :=
  match d with
  | [] => None
  | (k, v) :: d' => if String.eqb k key then Some v else lookup key d'
  end.

(** Python truthiness of a decoded value. *)
Definition truthy (v : JSON) : bool :=
  match v with
  | JNull => false
  | JBool b => b
  | JInt z => negb (Z.eqb z 0)
  | JFloat f => negb (PrimFloat.eqb f 0%float)
  | JStr s => negb (String.eqb s EmptyString)
  | JArr items => match items with [] => false | _ => true end
  | JObj fields => match fields with [] => false | _ => true end
  end.

(** [v == 1] in Python: [1], [1.0] and [True] all compare equal to [1]. *)
Definition py_eq_one (v : JSON) : bool :=
  match v with
  | JInt z => Z.eqb z 1
  | JFloat f => PrimFloat.eqb f 1%float
  | JBool b => b
  | _ => false
  end.

(** ** Exceptions *)

Inductive exn : Type :=
| AttributeError
| TypeError
| KeyError
| JSONDecodeError
| HTTPStatusError (status_code : Z)
| TransportError (msg : string)
| OSError (msg : string)
| OtherError (msg : string)
| HTTPException (status : Z) (detail : string).

Inductive res (A : Type) : Type :=
| Ret (a : A)
| Raise (e : exn).

Arguments Ret {A} a.
Arguments Raise {A} e.

Definition bind {A B : Type} (m : res A) (k : A -> res B) : res B :=
  match m with
  | Ret a => k a
  | Raise e => Raise e
  end.

Notation "x <- m ;; k" := (bind m (fun x => k))
  (at level 61, m at next level, right associativity).

(** [try: body  except Exception: handler] *)
Definition try_except {A : Type} (body : res A) (handler : exn -> res A) : res A :=
  match body with
  | Ret a => Ret a
  | Raise e => handler e
  end.

(** [v.get(key, default)]: only a dict has [get]. *)
Definition py_get (v : JSON) (key : string) (default : JSON) : res JSON :=
  match v with
  | JObj fields =>
      match lookup key fields with
      | Some x => Ret x
      | None => Ret default
      end
  | _ => Raise AttributeError
  end.

(** [v.split(sep)]: only a str has [split]. *)
Definition py_split (v : JSON) (sep : string) : res (list string) :=
  match v with
  | JStr s => Ret (PyStr.split sep s)
  | _ => Raise AttributeError
  end.

(** [for item in v]: the items a [for] loop visits, or [TypeError]. *)
Definition py_iter (v : JSON) : res (list JSON) :=
  match v with
  | JArr items => Ret items
  | JStr s => Ret (map (fun c => JStr (String c EmptyString)) (list_ascii_of_string s))
  | JObj fields => Ret (map (fun kv => JStr (fst kv)) fields)
  | _ => Raise TypeError
  end.

(** ** The parser: [parse_cms_data] *)

Record Episode : Type := mkEpisode {
  ep_name : string;
  video_url : string
}.

Record Title : Type := mkTitle {
  title_name : JSON;
  vod_pic : JSON;
  videos : list Episode;
  vod_id : JSON;
  vod_douban_id : JSON
}.

Record SourceResult : Type := mkSourceResult {
  source_name : string;
  result : list Title
}.

(** The inner loop, lines 58-62: [videos] is the list built so far. *)
Fixpoint parse_episodes (episodes : list string) (videos : list Episode) : list Episode :=
  match episodes with
  | [] => videos
  | episode :: rest =>
      match PyStr.split "$" episode with
      | [video_name; video_url] =>
          parse_episodes rest (videos ++ [mkEpisode video_name video_url])
      | _ => parse_episodes rest videos
      end
  end.

Definition unknown_name : string := "未知名称".

(** One turn of the outer loop, lines 54-71. *)
Definition parse_item (item : JSON) (results : list Title) : res (list Title) :=
  url <- py_get item "vod_play_url" (JStr "") ;;
  schemes <- py_split url "$$$" ;;
  let play_urls_str := hd EmptyString schemes in
  let episodes := PyStr.split "#" play_urls_str in
  let videos := parse_episodes episodes [] in
  match videos with
  | [] => Ret results
  | _ :: _ =>
      n <- py_get item "vod_name" (JStr unknown_name) ;;
      p <- py_get item "vod_pic" (JStr "") ;;
      i <- py_get item "vod_id" (JStr "") ;;
      d <- py_get item "vod_douban_id" (JStr "") ;;
      Ret (results ++ [mkTitle n p videos i d])
  end.

Fixpoint parse_items (items : list JSON) (results : list Title) : res (list Title) :=
  match items with
  | [] => Ret results
  | item :: rest =>
      results' <- parse_item item results ;;
      parse_items rest results'
  end.

Definition parse_cms_data (source_name : string) (cms_list : JSON) : res SourceResult :=
  items <- py_iter cms_list ;;
  results <- parse_items items [] ;;
  Ret (mkSourceResult source_name results).

(** [episodes_of s] is the list [videos] that lines 54-62 build from the
    string [s] stored under ["vod_play_url"]. *)
Definition episodes_of (s : string) : list Episode :=
  parse_episodes (PyStr.split "#" (hd EmptyString (PyStr.split "$$$" s))) [].

(** The episode tokens of an entry: the first play scheme cut at ['#']. *)
Definition tokens_of (s : string) : list string :=
  PyStr.split "#" (PyStr.first_piece "$$$" s).


(** The string under ["vod_play_url"] of an entry that is a dict and
    holds a str there (or nothing, the default being [""]). *)
Definition play_url_of (item : JSON) : option string :=
  match py_get item "vod_play_url" (JStr "") with
  | Ret (JStr s) => Some s
  | _ => None
  end.


(** What one token contributes to [videos]. *)
Definition token_episode (episode : string) : list Episode :=
  match PyStr.split "$" episode with
  | [video_name; video_url] => [mkEpisode video_name video_url]
  | _ => []
  end.


(** ** Configuration: [BaseUrlItem] and [SiteConfigModel] *)

Record Source : Type := mkSource {
  src_name : string;
  base_url : string
}.

Record SiteConfig : Type := mkSiteConfig {
  site_name : string;
  pc_background_image_url : string;
  phone_background_image_url : string;
  timeout : Z;
  base_urls : list Source
}.

(** ** The per-source fetch: [fetch_and_process] *)

(** What the program reads of an [httpx.Response]: the status code and
    the decoded body, [None] when [response.json()] raises. *)
Record Response : Type := mkResponse {
  status_code : Z;
  json_body : option JSON
}.

(** [client.get(url, timeout=..., ...)] is the network's answer to one
    request: a response, or an exception (connection refused, DNS
    failure, timeout, too many redirects). *)
Definition Client := string -> Z -> res Response.

(** [response.raise_for_status()]: httpx raises [HTTPStatusError] for
    every status outside 200-299. *)
Definition raise_for_status (response : Response) : res unit :=
  if (200 <=? status_code response)%Z && (status_code response <? 300)%Z
  then Ret tt
  else Raise (HTTPStatusError (status_code response)).

(** [response.json()] *)
Definition response_json (response : Response) : res JSON :=
  match json_body response with
  | Some data => Ret data
  | None => Raise JSONDecodeError
  end.

(** [v[key]] *)
Definition py_getitem (v : JSON) (key : string) : res JSON :=
  match v with
  | JObj fields =>
      match lookup key fields with
      | Some x => Ret x
      | None => Raise KeyError
      end
  | _ => Raise TypeError
  end.

(** Line 82: [f"{source['base_url']}?ac=detail&wd={keyword}"] *)
Definition request_url (source : Source) (keyword : string) : string :=
  base_url source ++ "?ac=detail&wd=" ++ keyword.

(** The body of the [try], lines 88-100. *)
Definition fetch_body (client_get : Client) (site_config : SiteConfig)
    (url name : string) : res (option SourceResult) :=
  response <- client_get url (timeout site_config) ;;
  _ <- raise_for_status response ;;
  data <- response_json response ;;
  code <- py_get data "code" JNull ;;
  lst <- py_get data "list" JNull ;;
  if py_eq_one code && truthy lst
  then cms_list <- py_getitem data "list" ;;
       parsed <- parse_cms_data name cms_list ;;
       Ret (Some parsed)
  else Ret None.

Definition fetch_and_process (client_get : Client) (site_config : SiteConfig)
    (source : Source) (keyword : string) : res (option SourceResult) :=
  let url := request_url source keyword in
  let name := src_name source in
  try_except (fetch_body client_get site_config url name)
             (fun _ => Ret None).

(** ** Percent-encoding *)

Module Percent.

(** Modelled from the spec: the program has no percent-encoding of its
    own; this is the encoding of RFC 3986 (unreserved characters stay,
    every other byte becomes [%XX]) that the spec's "keyword must be
    percent-encoded" refers to. *)
Definition unreserved (c : ascii) : bool :=
  let n := nat_of_ascii c in
  ((65 <=? n)%nat && (n <=? 90)%nat) || ((97 <=? n)%nat && (n <=? 122)%nat)
  || ((48 <=? n)%nat && (n <=? 57)%nat)
  || Ascii.eqb c "-" || Ascii.eqb c "." || Ascii.eqb c "_" || Ascii.eqb c "~".

Definition hex_digit (n : nat) : ascii :=
  if (n <? 10)%nat then ascii_of_nat (48 + n) else ascii_of_nat (55 + n).

Fixpoint percent_encode (s : string) : string :=
  match s with
  | EmptyString => EmptyString
  | String c s' =>
      if unreserved c
      then String c (percent_encode s')
      else let n := nat_of_ascii c in
           String "%" (String (hex_digit (n / 16))
                      (String (hex_digit (n mod 16)) (percent_encode s')))
  end.

Fixpoint all_unreserved (s : string) : bool :=
  match s with
  | EmptyString => true
  | String c s' => unreserved c && all_unreserved s'
  end.

(** The URL as the spec words it. *)
Definition spec_request_url (source : Source) (keyword : string) : string :=
  base_url source ++ "?ac=detail&wd=" ++ percent_encode keyword.

End Percent.

(** ** The streaming search: [search_event_generator] *)

(** A task created at line 111, once it has settled: the source it was
    created for, the instant at which it completed, and what awaiting it
    gives. *)
Record Task : Type := mkTask {
  task_source : Source;
  settled_at : nat;
  task_result : res (option SourceResult)
}.

(** Lines 110-113.  [net i] is the network as the [i]-th task meets it
    and [clock i] the instant at which that task completes. *)
Fixpoint create_tasks (net : nat -> Client) (clock : nat -> nat)
    (site_config : SiteConfig) (keyword : string) (i : nat)
    (sources : list Source) : list Task :=
  match sources with
  | [] => []
  | source :: rest =>
      mkTask source (clock i)
             (fetch_and_process (net i) site_config source keyword)
      :: create_tasks net clock site_config keyword (S i) rest
  end.

(** [asyncio.as_completed(tasks)] hands out every task once, earliest
    completion first; tasks completing at the same instant may come in
    any order. *)
Definition as_completed (tasks completed : list Task) : Prop :=
  Permutation tasks completed /\
  StronglySorted (fun a b => settled_at a <= settled_at b) completed.

(** One completion order that can always be taken: stable insertion by
    completion instant. *)
Fixpoint insert_task (t : Task) (l : list Task) : list Task :=
  match l with
  | [] => [t]
  | u :: l' =>
      if (settled_at t <=? settled_at u)%nat
      then t :: l else u :: insert_task t l'
  end.

Fixpoint completion_order (tasks : list Task) : list Task :=
  match tasks with
  | [] => []
  | t :: rest => insert_task t (completion_order rest)
  end.

(** The loop of lines 115-118 over the futures in the order they are
    handed out.  [emit] frames one result; the second component is the
    exception that ended the generator, if any. *)
Fixpoint generator_loop {E : Type} (emit : SourceResult -> E)
    (futures : list (res (option SourceResult))) : list E * option exn :=
  match futures with
  | [] => ([], None)
  | future :: rest =>
      match future with
      | Raise e => ([], Some e)
      | Ret awaited =>
          let (events, ending) := generator_loop emit rest in
          match awaited with
          | Some r =>
              match result r with
              | _ :: _ => (emit r :: events, ending)
              | [] => (events, ending)
              end
          | None => (events, ending)
          end
      end
  end.

Definition newline : string := String (ascii_of_nat 10) EmptyString.

(** Line 118: [f"data: {json.dumps(result, ensure_ascii=False)}\n\n"] *)
Definition sse_event (json_dumps : SourceResult -> string) (r : SourceResult) : string :=
  "data: " ++ json_dumps r ++ newline ++ newline.

Definition search_event_generator (json_dumps : SourceResult -> string)
    (completed : list Task) : list string * option exn :=
  generator_loop (sse_event json_dumps) (map task_result completed).

(** The results behind the events, before framing. *)
Definition yielded (completed : list Task) : list SourceResult * option exn :=
  generator_loop (fun r => r) (map task_result completed).

(** A task fails when its fetch gives [None]; it succeeds when its fetch
    gives a result with at least one title. *)
Definition failed (t : Task) : bool :=
  match task_result t with
  | Ret None => true
  | _ => false
  end.

Definition succeeded (t : Task) : bool :=
  match task_result t with
  | Ret (Some r) => match result r with [] => false | _ => true end
  | _ => false
  end.

(** The result a succeeding task carries. *)
Definition success_of (t : Task) : list SourceResult :=
  match task_result t with
  | Ret (Some r) => match result r with [] => [] | _ => [r] end
  | _ => []
  end.

(** Awaiting a task never raises. *)
Definition settles_quietly (t : Task) : Prop :=
  exists v, task_result t = Ret v.

(** ** The configuration endpoint: [update_config] *)

(** The process state the handler touches: the global [site_config] and
    the content of [config.json] ([None] while the file does not exist). *)
Record AppState : Type := mkAppState {
  site_config_of : SiteConfig;
  config_file : option string
}.

(** The dict the handler returns on success. *)
Record Reply : Type := mkReply {
  message : string;
  current_config : SiteConfig
}.

(** [open(path, "w")] followed by [f.write(content)]: opening can fail
    and leave the file alone; once opened the file is truncated, and a
    failing write leaves whatever part was written. *)
Inductive WriteOutcome : Type :=
| OpenRaises (e : exn)
| WriteRaises (e : exn) (written : string)
| Written.

Record ConfigEnv : Type := mkConfigEnv {
  model_dump_json : SiteConfig -> res string;
  write_outcome : string -> string -> WriteOutcome
}.

(** [str(e)] *)
Definition exn_message (e : exn) : string :=
  match e with
  | AttributeError => "AttributeError"
  | TypeError => "TypeError"
  | KeyError => "KeyError"
  | JSONDecodeError => "JSONDecodeError"
  | HTTPStatusError _ => "HTTPStatusError"
  | TransportError msg => msg
  | OSError msg => msg
  | OtherError msg => msg
  | HTTPException _ detail => detail
  end.

(** State and exceptions together: the state reached when an exception
    is raised is kept. *)
Definition M (A : Type) : Type := AppState -> res A * AppState.

Definition mret {A : Type} (a : A) : M A := fun st => (Ret a, st).

Definition mbind {A B : Type} (m : M A) (k : A -> M B) : M B :=
  fun st =>
    match m st with
    | (Ret a, st') => k a st'
    | (Raise e, st') => (Raise e, st')
    end.

Notation "x <~ m ;; k" := (mbind m (fun x => k))
  (at level 61, m at next level, right associativity).

Definition lift {A : Type} (r : res A) : M A := fun st => (r, st).

Definition mtry {A : Type} (body : M A) (handler : exn -> M A) : M A :=
  fun st =>
    match body st with
    | (Ret a, st') => (Ret a, st')
    | (Raise e, st') => handler e st'
    end.

(** Lines 148-149. *)
Definition write_file (env : ConfigEnv) (file_path content : string) : M unit :=
  fun st =>
    match write_outcome env file_path content with
    | OpenRaises e => (Raise e, st)
    | WriteRaises e written =>
        (Raise e, mkAppState (site_config_of st) (Some written))
    | Written => (Ret tt, mkAppState (site_config_of st) (Some content))
    end.

(** Line 151: [site_config = config_data.model_dump()] *)
Definition set_site_config (config_data : SiteConfig) : M unit :=
  fun st => (Ret tt, mkAppState config_data (config_file st)).

Definition get_site_config : M SiteConfig :=
  fun st => (Ret (site_config_of st), st).

Definition update_config (env : ConfigEnv) (config_data : SiteConfig) : M Reply :=
  mtry
    (config_json_string <~ lift (model_dump_json env config_data) ;;
     let file_path := "config.json" in
     _ <~ write_file env file_path config_json_string ;;
     _ <~ set_site_config config_data ;;
     current <~ get_site_config ;;
     mret (mkReply "Configuration updated and saved successfully." current))
    (fun e =>
       lift (Raise (HTTPException 500 ("Error updating config: " ++ exn_message e)))).

(** ** Auxiliary notions for the parser's properties *)

(** An entry the outer loop can process: a dict whose ["vod_play_url"]
    is a str or is missing. *)
Definition entry_ok (item : JSON) : bool :=
  match play_url_of item with
  | Some _ => true
  | None => false
  end.

(** The list [videos] an entry gives. *)
Definition entry_episodes (item : JSON) : list Episode :=
  match play_url_of item with
  | Some s => episodes_of s
  | None => []
  end.

Definition has_episodes (videos : list Episode) : bool :=
  match videos with
  | [] => false
  | _ :: _ => true
  end.

(** [d.get(key, default)] on a dict. *)
Definition get_or (fields : dict) (key : string) (default : JSON) : JSON :=
  match lookup key fields with
  | Some v => v
  | None => default
  end.

(** What one entry adds to [results], lines 64-71. *)
Definition entry_titles (item : JSON) : list Title :=
  match item with
  | JObj fields =>
      match entry_episodes item with
      | [] => []
      | videos =>
          [mkTitle (get_or fields "vod_name" (JStr unknown_name))
                   (get_or fields "vod_pic" (JStr ""))
                   videos
                   (get_or fields "vod_id" (JStr ""))
                   (get_or fields "vod_douban_id" (JStr ""))]
      end
  | _ => []
  end.

(** The token [name$url] from which the parser reads the episode [e]. *)
Definition episode_token (e : Episode) : string :=
  ep_name e ++ "$" ++ video_url e.

(** An episode that can be written as a token: no ['$'] and no ['#'] in
    its name or url, and a url that is not empty. *)
Definition plain (s : string) : bool :=
  (PyStr.count "$" s =? 0)%nat && (PyStr.count "#" s =? 0)%nat.

Definition writable (e : Episode) : bool :=
  plain (ep_name e) && plain (video_url e)
  && negb (String.eqb (video_url e) EmptyString).

(** Every ['$'] of [s] is followed by a character other than ['$']. *)
Fixpoint dollar_followed (s : string) : bool :=
  match s with
  | EmptyString => true
  | String c s' =>
      (if Ascii.eqb c "$"
       then match s' with
            | String d _ => negb (Ascii.eqb d "$")
            | EmptyString => false
            end
       else true) && dollar_followed s'
  end.

(** A task whose fetch gives a result without titles. *)
Definition empty_handed (t : Task) : bool :=
  match task_result t with
  | Ret (Some r) => match result r with [] => true | _ => false end
  | _ => false
  end.

(** ** The search endpoint: [search] *)

(** What [search] returns: the dict with the error, or the streaming
    response holding the generator with its two arguments, its body not
    yet started. *)
Inductive SearchReply : Type :=
| ErrorReply (error : string)
| StreamingResponse (keyword : string) (sources : list Source).

(** Lines 121-131.  The argument [site_config["base_urls"]] is evaluated
    when the handler runs. *)
Definition search (keyword : string) : M SearchReply :=
  fun st =>
    if String.eqb keyword EmptyString
    then (Ret (ErrorReply "keyword is required"), st)
    else (Ret (StreamingResponse keyword (base_urls (site_config_of st))), st).

(** The tasks a reply creates once its generator is started, in the
    state [st] of that moment: the sources are those given to the
    generator, while each fetch reads the global [site_config] (line 90)
    when it runs. *)
Definition stream_tasks (net : nat -> Client) (clock : nat -> nat)
    (st : AppState) (reply : res SearchReply) : list Task :=
  match reply with
  | Ret (StreamingResponse keyword sources) =>
      create_tasks net clock (site_config_of st) keyword 0 sources
  | _ => []
  end.

(** ** Sample data *)

Module Sample.

Definition config : SiteConfig :=
  mkSiteConfig "FreeBili" "" "" 1
    [mkSource "A" "http://a.example/api";
     mkSource "B" "http://b.example/api";
     mkSource "C" "http://c.example/api"].

(** One catalog entry with the given name and [vod_play_url]. *)
Definition entry (vod_name play_url : string) : JSON :=
  JObj [("vod_id", JInt 7); ("vod_name", JStr vod_name);
        ("vod_play_url", JStr play_url)].

Definition body (entries : list JSON) : JSON :=
  JObj [("code", JInt 1); ("list", JArr entries)].

Definition ok (entries : list JSON) : res Response :=
  Ret (mkResponse 200 (Some (body entries))).

(** Source A answers with one title, source B with another, source C
    times out. *)
Definition net (i : nat) : Client :=
  fun _ _ =>
    match i with
    | 0 => ok [entry "Film" "A$url1#B$url2$$$ignored"]
    | 1 => ok [entry "Show" "E1$u1#broken#E2$u2"]
    | _ => Raise (TransportError "timed out")
    end.

(** A answers after 200 ms, B after 50 ms, C gives up after 1 s. *)
Definition clock (i : nat) : nat :=
  match i with
  | 0 => 200
  | 1 => 50
  | _ => 1000
  end.

Definition tasks : list Task :=
  create_tasks net clock config "kw" 0 (base_urls config).

(** A stand-in for [json.dumps]: the source name only. *)
Definition dumps (r : SourceResult) : string := source_name r.

(** A source whose only entry has no well-formed episode. *)
Definition empty_net : Client :=
  fun _ _ => ok [entry "Film" "no-dollar-here"].

Definition failing_disk : ConfigEnv :=
  mkConfigEnv (fun _ => Ret "{}")
              (fun _ _ => WriteRaises (OSError "No space left on device") "").

Definition state0 : AppState := mkAppState config (Some "old").

Definition new_config : SiteConfig := mkSiteConfig "New" "" "" 5 [].

Definition working_disk : ConfigEnv :=
  mkConfigEnv (fun _ => Ret "{}") (fun _ _ => Written).

Definition other_config : SiteConfig :=
  mkSiteConfig "Other" "" "" 5 [mkSource "D" "http://d.example/api"].

End Sample.

(** * Worked examples *)

Example split_scheme_overlap :
  PyStr.split "$$$" "a$$$$b$$$c" = ["a"; "$b"; "c"].
Proof. reflexivity. Qed.

Example parse_demo :
  parse_cms_data "s" (JArr [JObj [("vod_play_url", JStr "A$url1#B$url2$$$ignored")]])
  = Ret (mkSourceResult "s"
      [mkTitle (JStr unknown_name) (JStr "")
         [mkEpisode "A" "url1"; mkEpisode "B" "url2"] (JStr "") (JStr "")]).
Proof. reflexivity. Qed.

(** * Properties of [split] *)

Module PyStrFacts.
Import PyStr.

Lemma split_go_not_nil (sep : string) (s : string) :
  forall skip, split_go sep skip s <> [].
Proof.
  induction s as [|c s IH]; intros skip; cbn [split_go].
  - discriminate.
  - destruct skip as [|k]; [|apply IH].
    destruct (prefix sep (String c s)); [discriminate|].
    destruct (split_go sep 0 s); discriminate.
Qed.

Lemma split_not_nil (sep s : string) : split sep s <> [].
Proof. apply split_go_not_nil. Qed.

Lemma first_piece_empty (sep : string) : first_piece sep "" = "".
Proof. reflexivity. Qed.

Lemma first_piece_cons (sep : string) (c : ascii) (s : string) :
  first_piece sep (String c s)
  = if prefix sep (String c s) then "" else String c (first_piece sep s).
Proof.
  unfold first_piece, split. cbn [split_go].
  destruct (prefix sep (String c s)); [reflexivity|].
  destruct (split_go sep 0 s) eqn:E; [|reflexivity].
  exfalso. exact (split_go_not_nil _ _ _ E).
Qed.

Lemma prefix_refl_app (sep t : string) : prefix sep (sep ++ t) = true.
Proof.
  induction sep as [|a sep IH]; simpl; [now destruct t|].
  destruct (ascii_dec a a); [exact IH|congruence].
Qed.

(** Whether [sep] starts [x ++ t] is settled by [x] alone as soon as [x]
    is at least as long as [sep]. *)
Lemma prefix_app_long (sep : string) :
  forall x t, String.length sep <= String.length x ->
              prefix sep (x ++ t) = prefix sep x.
Proof.
  induction sep as [|a sep IH]; intros x t Hlen.
  - now destruct x, t.
  - destruct x as [|b x]; simpl in *; [lia|].
    destruct (ascii_dec a b); [|reflexivity].
    apply IH. lia.
Qed.

Lemma length_app (a b : string) :
  String.length (a ++ b) = String.length a + String.length b.
Proof. induction a; simpl; congruence. Qed.

Lemma app_empty_r (s : string) : (s ++ "")%string = s.
Proof. induction s; simpl; congruence. Qed.

Lemma app_assoc (a b c : string) : ((a ++ b) ++ c)%string = (a ++ b ++ c)%string.
Proof. induction a; simpl; congruence. Qed.

Lemma first_piece_at_sep (sep t : string) : first_piece sep (sep ++ t) = "".
Proof.
  destruct sep as [|a sep].
  - cbn [append]. destruct t as [|d t]; [reflexivity|].
    now rewrite first_piece_cons.
  - change ((String a sep ++ t)%string) with (String a (sep ++ t)).
    rewrite first_piece_cons.
    change (String a (sep ++ t)) with ((String a sep ++ t)%string).
    now rewrite prefix_refl_app.
Qed.

(** The first piece of [p ++ sep ++ t] never depends on [t]. *)
Lemma first_piece_ignores_tail (sep p t : string) :
  first_piece sep (p ++ sep ++ t) = first_piece sep (p ++ sep).
Proof.
  induction p as [|c p IH].
  - change (first_piece sep (sep ++ t) = first_piece sep sep).
    rewrite first_piece_at_sep.
    rewrite <- (app_empty_r sep) at 2. now rewrite first_piece_at_sep.
  - change ((String c p ++ sep ++ t)%string) with (String c (p ++ sep ++ t)).
    change ((String c p ++ sep)%string) with (String c (p ++ sep)).
    rewrite !first_piece_cons, IH.
    replace (String c (p ++ sep ++ t)) with ((String c (p ++ sep) ++ t)%string)
      by (simpl; now rewrite app_assoc).
    rewrite prefix_app_long; [reflexivity|].
    simpl. rewrite length_app. lia.
Qed.

(** Without any occurrence of the separator, the string is one piece. *)
Lemma split_absent (sep : string) (s : string) :
  occurs sep s = false -> split sep s = [s].
Proof.
  unfold split.
  induction s as [|c s IH]; cbn [split_go occurs]; intros H; [reflexivity|].
  apply orb_false_iff in H as [Hp Ho].
  rewrite Hp, (IH Ho). reflexivity.
Qed.

End PyStrFacts.

(** ** Splitting on a single character *)

Module PyCharSplit.
Import PyStr.

Lemma prefix_empty (s : string) : prefix "" s = true.
Proof. now destruct s. Qed.

Lemma split_char_cons (c d : ascii) (s : string) :
  split (String c "") (String d s)
  = if Ascii.eqb c d
    then "" :: split (String c "") s
    else match split (String c "") s with
         | piece :: pieces => String d piece :: pieces
         | [] => [String d ""]
         end.
Proof.
  unfold split. cbn [split_go prefix String.length Nat.sub].
  rewrite prefix_empty.
  destruct (ascii_dec c d) as [->|Hne].
  - now rewrite Ascii.eqb_refl.
  - apply Ascii.eqb_neq in Hne. now rewrite Hne.
Qed.

(** The number of pieces is one more than the number of separators. *)
Lemma split_char_length (c : ascii) (s : string) :
  List.length (split (String c "") s) = S (count c s).
Proof.
  induction s as [|d s IH]; [reflexivity|].
  rewrite split_char_cons. cbn [count].
  destruct (Ascii.eqb c d); cbn [List.length].
  - now rewrite IH.
  - destruct (split (String c "") s) eqn:E; cbn [List.length] in *; lia.
Qed.

Lemma split_char_absent (c : ascii) (p : string) :
  count c p = 0 -> split (String c "") p = [p].
Proof.
  induction p as [|d p IH]; [reflexivity|].
  cbn [count]. rewrite split_char_cons.
  destruct (Ascii.eqb c d); [discriminate|].
  intros H. now rewrite (IH H).
Qed.

Lemma split_char_app (c : ascii) (p rest : string) :
  count c p = 0 ->
  split (String c "") (p ++ String c rest) = p :: split (String c "") rest.
Proof.
  induction p as [|d p IH]; cbn [count append].
  - intros _. now rewrite split_char_cons, Ascii.eqb_refl.
  - rewrite split_char_cons.
    destruct (Ascii.eqb c d); [discriminate|].
    intros H. now rewrite (IH H).
Qed.

(** Tokens that hold no separator are recovered from their join. *)
Lemma split_join (c : ascii) (tokens : list string) :
  tokens <> [] ->
  Forall (fun t => count c t = 0) tokens ->
  split (String c "") (join (String c "") tokens) = tokens.
Proof.
  induction tokens as [|t ts IH]; [congruence|].
  intros _ Hall. inversion Hall as [|? ? Ht Hts]; subst.
  destruct ts as [|t' ts].
  - now apply split_char_absent.
  - change (join (String c "") (t :: t' :: ts))
      with ((t ++ String c (join (String c "") (t' :: ts)))%string).
    rewrite (split_char_app _ _ _ Ht). f_equal.
    apply IH; [discriminate|exact Hts].
Qed.

(** No piece holds the separator. *)
Lemma split_char_pieces (c : ascii) (s : string) :
  Forall (fun p => count c p = 0) (split (String c "") s).
Proof.
  induction s as [|d s IH].
  - repeat constructor.
  - rewrite split_char_cons.
    destruct (Ascii.eqb c d) eqn:E.
    + constructor; [reflexivity|exact IH].
    + destruct (split (String c "") s) as [|p ps].
      * constructor; [cbn [count]; now rewrite E|constructor].
      * inversion IH; subst.
        constructor; [cbn [count]; now rewrite E|assumption].
Qed.

End PyCharSplit.

(** * Properties of the parser *)

Module ParserFacts.
Import PyStr.

Lemma parse_episodes_spec (episodes : list string) :
  forall videos,
    parse_episodes episodes videos = videos ++ flat_map token_episode episodes.
Proof.
  induction episodes as [|tok rest IH]; intros videos; cbn [parse_episodes flat_map].
  - now rewrite app_nil_r.
  - unfold token_episode at 1.
    destruct (split "$" tok) as [|a [|b [|x l]]]; rewrite IH;
      cbn [app]; try reflexivity.
    now rewrite <- List.app_assoc.
Qed.

Lemma two_parts_shape (tok : string) :
  List.length (split "$" tok) = 2 <->
  exists video_name video_url, split "$" tok = [video_name; video_url].
Proof.
  split.
  - destruct (split "$" tok) as [|a [|b [|x l]]]; cbn; try discriminate.
    intros _. now exists a, b.
  - intros (a & b & ->). reflexivity.
Qed.

(** A token has two parts exactly when it holds one ['$']. *)
Lemma two_parts_count (tok : string) :
  List.length (split "$" tok) = 2 <-> count "$" tok = 1.
Proof. rewrite PyCharSplit.split_char_length. lia. Qed.

Lemma token_episode_malformed (tok : string) :
  List.length (split "$" tok) <> 2 -> token_episode tok = [].
Proof.
  unfold token_episode.
  destruct (split "$" tok) as [|a [|b [|x l]]]; cbn; congruence.
Qed.

Lemma token_episode_wellformed (tok video_name video_url : string) :
  split "$" tok = [video_name; video_url] ->
  token_episode tok = [mkEpisode video_name video_url].
Proof. unfold token_episode. now intros ->. Qed.

Lemma token_episode_In (tok : string) (e : Episode) :
  In e (token_episode tok) <-> split "$" tok = [ep_name e; video_url e].
Proof.
  unfold token_episode. destruct e as [n u]. cbn [ep_name video_url].
  destruct (split "$" tok) as [|a [|b [|x l]]]; cbn; split;
    try (intros []; fail); try discriminate.
  - intros [H|[]]. now inversion H.
  - intros H. inversion H. now left.
Qed.

End ParserFacts.

(** ** Invariants of [parse_item] and [parse_items] *)

Module ParserInvariants.
Import PyStr.

(** Reading a key of a dict never raises. *)
Lemma py_get_dict (fields : dict) (key : string) (default : JSON) :
  exists v, py_get (JObj fields) key default = Ret v.
Proof. cbn. destruct (lookup key fields); eauto. Qed.

(** An entry that parses is a dict holding a str (or nothing) under
    ["vod_play_url"]. *)
Lemma parse_item_play_url (item : JSON) (results r : list Title) :
  parse_item item results = Ret r ->
  exists fields s, item = JObj fields /\ play_url_of item = Some s.
Proof.
  unfold parse_item, play_url_of.
  destruct item as [| | | | |items|fields]; cbn; try discriminate.
  destruct (lookup "vod_play_url" fields) as [[| | | |s| |]|]; cbn;
    try discriminate; eauto.
Qed.

(** A turn of the outer loop either leaves [results] alone, when the
    entry has no episode, or appends one title holding the entry's
    episodes. *)
Lemma parse_item_step (fields : dict) (s : string) (results : list Title) :
  play_url_of (JObj fields) = Some s ->
  (episodes_of s = [] /\ parse_item (JObj fields) results = Ret results)
  \/ (episodes_of s <> [] /\
      exists n p i d,
        parse_item (JObj fields) results
        = Ret (results ++ [mkTitle n p (episodes_of s) i d])).
Proof.
  unfold parse_item, play_url_of, episodes_of. cbn.
  intros Hs.
  assert (Hurl : match lookup "vod_play_url" fields with
                 | Some x => Ret x | None => Ret (JStr "") end = Ret (JStr s)).
  { destruct (lookup "vod_play_url" fields) as [[| | | |s0| |]|];
      cbn in Hs; congruence. }
  rewrite Hurl. cbn.
  destruct (parse_episodes (split "#" (hd "" (split "$$$" s))) []) eqn:E.
  - left. now split.
  - right. split; [discriminate|].
    destruct (lookup "vod_name" fields), (lookup "vod_pic" fields),
      (lookup "vod_id" fields), (lookup "vod_douban_id" fields); cbn; eauto.
Qed.

Lemma parse_items_invariant (P : Title -> Prop) :
  (forall n p i d s, episodes_of s <> [] -> P (mkTitle n p (episodes_of s) i d)) ->
  forall items results r,
    parse_items items results = Ret r -> Forall P results -> Forall P r.
Proof.
  intros HP. induction items as [|item rest IH]; intros results r; cbn.
  - intros [= <-]. auto.
  - destruct (parse_item item results) as [results'|e] eqn:E; cbn; [|discriminate].
    intros Hrest Hres. apply (IH _ _ Hrest).
    destruct (parse_item_play_url _ _ _ E) as (fields & s & -> & Hs).
    destruct (parse_item_step fields s results Hs)
      as [[_ H]|[Hne (n & p & i & d & H)]];
      rewrite H in E; injection E as <-; [assumption|].
    apply Forall_app. split; [assumption|].
    constructor; [now apply HP|constructor].
Qed.

Lemma parse_cms_data_invariant (P : Title -> Prop) :
  (forall n p i d s, episodes_of s <> [] -> P (mkTitle n p (episodes_of s) i d)) ->
  forall source_name cms_list r,
    parse_cms_data source_name cms_list = Ret r -> Forall P (result r).
Proof.
  intros HP source_name cms_list r. unfold parse_cms_data.
  destruct (py_iter cms_list) as [items|]; cbn; [|discriminate].
  destruct (parse_items items []) as [results|] eqn:E; cbn; [|discriminate].
  intros [= <-]. cbn.
  apply (parse_items_invariant P HP _ _ _ E). constructor.
Qed.

Lemma parse_cms_data_name (given : string) (cms_list : JSON) (r : SourceResult) :
  parse_cms_data given cms_list = Ret r -> source_name r = given.
Proof.
  unfold parse_cms_data.
  destruct (py_iter cms_list) as [items|]; cbn; [|discriminate].
  destruct (parse_items items []) as [results|]; cbn; [|discriminate].
  now intros [= <-].
Qed.



End ParserInvariants.

(** * Properties of the per-source fetch *)

Module FetchFacts.

#[local] Arguments parse_cms_data : simpl never.

(** A truthy value that is not an array makes the parser raise: a str or
    a dict is iterated but its items have no [get], anything else is not
    iterable. *)
Lemma parse_truthy_not_array (source_name : string) (v : JSON) :
  truthy v = true -> (forall items, v <> JArr items) ->
  exists e, parse_cms_data source_name v = Raise e.
Proof.
  intros Ht Harr. unfold parse_cms_data.
  destruct v as [|b|z|f|s|items|fields]; cbn in *; try discriminate; eauto.
  - destruct s as [|c s]; [discriminate|]. cbn. eauto.
  - now destruct (Harr items).
  - destruct fields as [|[k x] fields]; [discriminate|]. cbn. eauto.
Qed.

Lemma fetch_returns (client_get : Client) (site_config : SiteConfig)
    (source : Source) (keyword : string) :
  exists v, fetch_and_process client_get site_config source keyword = Ret v.
Proof.
  unfold fetch_and_process, try_except.
  destruct (fetch_body _ _ _ _); eauto.
Qed.

Lemma fetch_some_inv (client_get : Client) (site_config : SiteConfig)
    (source : Source) (keyword : string) (r : SourceResult) :
  fetch_and_process client_get site_config source keyword = Ret (Some r) ->
  exists response fields code items,
    client_get (request_url source keyword) (timeout site_config) = Ret response /\
    (200 <= status_code response < 300)%Z /\
    json_body response = Some (JObj fields) /\
    lookup "code" fields = Some code /\ py_eq_one code = true /\
    lookup "list" fields = Some (JArr items) /\ items <> [] /\
    parse_cms_data (src_name source) (JArr items) = Ret r.
Proof.
  unfold fetch_and_process, fetch_body.
  destruct (client_get _ _) as [response|e] eqn:Hget; cbn; [|discriminate].
  unfold raise_for_status, response_json.
  destruct ((200 <=? status_code response)%Z && (status_code response <? 300)%Z)
    eqn:Hst; cbn; [|discriminate].
  destruct (json_body response) as [data|] eqn:Hbody; cbn; [|discriminate].
  destruct data as [| | | | | |fields]; cbn; try discriminate.
  destruct (lookup "code" fields) as [code|] eqn:Hcode;
    destruct (lookup "list" fields) as [lst|] eqn:Hlist; cbn;
    try discriminate; [|rewrite andb_false_r; discriminate].
  destruct (py_eq_one code) eqn:Hone; cbn; [|discriminate].
  destruct (truthy lst) eqn:Ht; cbn; [|discriminate].
  destruct (parse_cms_data (src_name source) lst) as [parsed|e] eqn:Hp; cbn;
    [|discriminate].
  intros [= <-].
  assert (exists items, lst = JArr items) as [items ->].
  { destruct lst as [| | | | |items|]; eauto;
      destruct (parse_truthy_not_array (src_name source) _ Ht) as [e He];
      try discriminate; congruence. }
  exists response, fields, code, items.
  apply andb_true_iff in Hst as [H1 H2].
  repeat split; try assumption; try lia.
  now destruct items.
Qed.

(** The converse: a response of the expected shape is parsed. *)
Lemma fetch_expected_shape (client_get : Client) (site_config : SiteConfig)
    (source : Source) (keyword : string)
    (response : Response) (fields : dict) (code : JSON) (items : list JSON) :
  client_get (request_url source keyword) (timeout site_config) = Ret response ->
  (200 <= status_code response < 300)%Z ->
  json_body response = Some (JObj fields) ->
  lookup "code" fields = Some code -> py_eq_one code = true ->
  lookup "list" fields = Some (JArr items) -> items <> [] ->
  fetch_and_process client_get site_config source keyword
  = match parse_cms_data (src_name source) (JArr items) with
    | Ret parsed => Ret (Some parsed)
    | Raise _ => Ret None
    end.
Proof.
  intros Hget Hst Hbody Hcode Hone Hlist Hne.
  unfold fetch_and_process, fetch_body. rewrite Hget. cbn.
  unfold raise_for_status, response_json.
  replace ((200 <=? status_code response)%Z && (status_code response <? 300)%Z)
    with true by (symmetry; apply andb_true_iff; split; lia).
  cbn. rewrite Hbody. cbn. rewrite Hcode, Hlist. cbn. rewrite Hone.
  destruct items as [|item items]; [congruence|]. cbn.
  destruct (parse_cms_data (src_name source) (JArr (item :: items))); reflexivity.
Qed.

(** Only the answer to the request for [request_url source keyword]
    matters to the fetch. *)
Lemma fetch_ext (c1 c2 : Client) (site_config : SiteConfig)
    (source : Source) (keyword : string) :
  c1 (request_url source keyword) (timeout site_config)
  = c2 (request_url source keyword) (timeout site_config) ->
  fetch_and_process c1 site_config source keyword
  = fetch_and_process c2 site_config source keyword.
Proof.
  intros H. unfold fetch_and_process, fetch_body. now rewrite H.
Qed.

End FetchFacts.

(** * Properties of the streaming search *)

Module GeneratorFacts.

#[local] Arguments fetch_and_process : simpl never.

Lemma create_tasks_quiet (net : nat -> Client) (clock : nat -> nat)
    (site_config : SiteConfig) (keyword : string) (sources : list Source) :
  forall i, Forall settles_quietly
                   (create_tasks net clock site_config keyword i sources).
Proof.
  induction sources as [|source rest IH]; intros i; cbn; constructor.
  - apply FetchFacts.fetch_returns.
  - apply IH.
Qed.

Lemma create_tasks_length (net : nat -> Client) (clock : nat -> nat)
    (site_config : SiteConfig) (keyword : string) (sources : list Source) :
  forall i, List.length (create_tasks net clock site_config keyword i sources)
            = List.length sources.
Proof. induction sources; intros i; cbn; [reflexivity|now rewrite IHsources]. Qed.

(** Every task runs the fetch for its own source. *)
Lemma create_tasks_fetch (net : nat -> Client) (clock : nat -> nat)
    (site_config : SiteConfig) (keyword : string) (sources : list Source) :
  forall i t,
    In t (create_tasks net clock site_config keyword i sources) ->
    In (task_source t) sources /\
    exists j, task_result t
              = fetch_and_process (net j) site_config (task_source t) keyword.
Proof.
  induction sources as [|source rest IH]; intros i t; cbn; [intros []|].
  intros [<-|Hin]; cbn.
  - split; [now left|now exists i].
  - destruct (IH _ _ Hin) as [H1 H2]. split; [now right|exact H2].
Qed.

(** When no awaited task raises, the loop emits the successes in the
    order the futures come and ends normally. *)
Lemma generator_loop_quiet {E : Type} (emit : SourceResult -> E) (l : list Task) :
  Forall settles_quietly l ->
  generator_loop emit (map task_result l)
  = (flat_map (fun t => map emit (success_of t)) l, None).
Proof.
  induction 1 as [|t l [v Hv] _ IH]; cbn; [reflexivity|].
  rewrite IH. unfold success_of. rewrite Hv.
  destruct v as [r|]; [|reflexivity].
  now destruct (result r).
Qed.

Lemma flat_map_map_success {E : Type} (emit : SourceResult -> E) (l : list Task) :
  flat_map (fun t => map emit (success_of t)) l
  = map emit (flat_map success_of l).
Proof.
  induction l as [|t l IH]; cbn; [reflexivity|].
  now rewrite map_app, IH.
Qed.

Lemma success_of_succeeded (t : Task) :
  List.length (success_of t) = if succeeded t then 1 else 0.
Proof.
  unfold success_of, succeeded.
  destruct (task_result t) as [[r|]|]; try reflexivity.
  now destruct (result r).
Qed.

Lemma successes_length (l : list Task) :
  List.length (flat_map success_of l) = List.length (filter succeeded l).
Proof.
  induction l as [|t l IH]; cbn; [reflexivity|].
  rewrite length_app, IH, success_of_succeeded.
  now destruct (succeeded t).
Qed.

Lemma failed_not_succeeded (t : Task) : failed t = true -> succeeded t = false.
Proof.
  unfold failed, succeeded. destruct (task_result t) as [[r|]|]; congruence.
Qed.

(** When every task either fails or succeeds, failures and successes
    add up to the number of tasks. *)
Lemma partition_count (l : list Task) :
  forallb (fun t => failed t || succeeded t) l = true ->
  List.length (filter failed l) + List.length (filter succeeded l)
  = List.length l.
Proof.
  induction l as [|t l IH]; cbn; [reflexivity|].
  intros H. apply andb_true_iff in H as [Ht Hl]. specialize (IH Hl).
  destruct (failed t) eqn:Hf.
  - rewrite (failed_not_succeeded _ Hf). cbn. lia.
  - cbn in Ht. rewrite Ht. cbn. lia.
Qed.

(** In a list sorted by completion instant, a task that completed
    strictly earlier stands before one that completed later. *)
Lemma sorted_earlier_first (l : list Task) (a b : Task) :
  StronglySorted (fun x y => settled_at x <= settled_at y) l ->
  In a l -> In b l -> settled_at b < settled_at a ->
  exists l1 l2 l3, l = l1 ++ b :: l2 ++ a :: l3.
Proof.
  induction 1 as [|h t Hsorted IH Hall]; [intros []|].
  intros Ha Hb Hlt. rewrite Forall_forall in Hall.
  destruct Ha as [->|Ha].
  - destruct Hb as [->|Hb]; [lia|]. specialize (Hall _ Hb). cbn in Hall. lia.
  - destruct Hb as [->|Hb].
    + destruct (in_split _ _ Ha) as (l2 & l3 & ->).
      now exists [], l2, l3.
    + destruct (IH Ha Hb Hlt) as (l1 & l2 & l3 & ->).
      now exists (h :: l1), l2, l3.
Qed.

(** [completion_order] is a completion order. *)
Lemma insert_task_perm (t : Task) (l : list Task) :
  Permutation (t :: l) (insert_task t l).
Proof.
  induction l as [|u l IH]; cbn; [reflexivity|].
  destruct (settled_at t <=? settled_at u)%nat; [reflexivity|].
  rewrite perm_swap. now constructor.
Qed.

Lemma insert_task_sorted (t : Task) (l : list Task) :
  StronglySorted (fun x y => settled_at x <= settled_at y) l ->
  StronglySorted (fun x y => settled_at x <= settled_at y) (insert_task t l).
Proof.
  induction 1 as [|u l Hsorted IH Hall]; cbn.
  - repeat constructor.
  - destruct (settled_at t <=? settled_at u)%nat eqn:E.
    + apply Nat.leb_le in E. constructor; [now constructor|].
      constructor; [exact E|].
      eapply Forall_impl; [|exact Hall]. cbn. intros; lia.
    + apply Nat.leb_gt in E. constructor; [exact IH|].
      eapply Permutation_Forall; [apply insert_task_perm|].
      constructor; [lia|exact Hall].
Qed.

Lemma completion_order_ok (tasks : list Task) :
  as_completed tasks (completion_order tasks).
Proof.
  induction tasks as [|t tasks [Hperm Hsorted]]; cbn.
  - split; constructor.
  - split.
    + rewrite <- insert_task_perm. now constructor.
    + now apply insert_task_sorted.
Qed.

End GeneratorFacts.

(** * The parser's claims *)

Module ParserClaims.
Import PyStr.

(** C5.  An entry whose [vod_play_url] is ["A$url1#B$url2$$$"] followed
    by any text (["ignored"] or anything else) yields one title with
    exactly the episodes [A/url1] and [B/url2], in that order.  In
    general the episodes of [p ++ "$$$" ++ t] are those of [p ++ "$$$"]:
    nothing after the first ["$$$"] is looked at; and a string without
    ["$$$"] is used whole. *)
Theorem first_scheme_only (fields : dict) (tail : string) (results : list Title) :
  lookup "vod_play_url" fields = Some (JStr ("A$url1#B$url2$$$" ++ tail)) ->
  (exists n p i d,
      parse_item (JObj fields) results
      = Ret (results ++ [mkTitle n p [mkEpisode "A" "url1"; mkEpisode "B" "url2"] i d]))
  /\ (forall p t, episodes_of (p ++ "$$$" ++ t) = episodes_of (p ++ "$$$"))
  /\ (forall s, occurs "$$$" s = false ->
                episodes_of s = parse_episodes (split "#" s) []).
Proof.
  intros Hurl.
  assert (Htail : forall p t, episodes_of (p ++ "$$$" ++ t) = episodes_of (p ++ "$$$")).
  { intros p t. unfold episodes_of.
    change (hd "" (split "$$$" (p ++ "$$$" ++ t)))
      with (first_piece "$$$" (p ++ "$$$" ++ t)).
    now rewrite PyStrFacts.first_piece_ignores_tail. }
  split; [|split; [exact Htail|]].
  - assert (Hs : play_url_of (JObj fields)
                 = Some ("A$url1#B$url2$$$" ++ tail)%string).
    { unfold play_url_of. cbn [py_get]. now rewrite Hurl. }
    assert (He : episodes_of ("A$url1#B$url2$$$" ++ tail)
                 = [mkEpisode "A" "url1"; mkEpisode "B" "url2"]).
    { change (("A$url1#B$url2$$$" ++ tail)%string)
        with (("A$url1#B$url2" ++ "$$$" ++ tail)%string).
      rewrite Htail. reflexivity. }
    destruct (ParserInvariants.parse_item_step fields _ results Hs)
      as [[Hnil _]|[_ H]].
    + rewrite He in Hnil. discriminate.
    + now rewrite He in H.
  - intros s Habsent. unfold episodes_of.
    now rewrite (PyStrFacts.split_absent _ _ Habsent).
Qed.

Lemma first_scheme_only_witness :
  exists n p i d,
    parse_item (Sample.entry "Film" "A$url1#B$url2$$$ignored") []
    = Ret ([] ++ [mkTitle n p [mkEpisode "A" "url1"; mkEpisode "B" "url2"] i d]).
Proof.
  apply (first_scheme_only
           [("vod_id", JInt 7); ("vod_name", JStr "Film");
            ("vod_play_url", JStr "A$url1#B$url2$$$ignored")]
           "ignored" []).
  reflexivity.
Defined.

(** C6.  A token that does not split on ['$'] into exactly two parts
    (zero parts never happens; one part or three and more do) adds
    nothing to [videos], and the episodes obtained from the tokens
    around it are the same with or without it. *)
Theorem malformed_token_dropped
    (before after : list string) (tok : string) (videos : list Episode) :
  List.length (split "$" tok) <> 2 ->
  List.length (split "$" tok) <> 0
  /\ parse_episodes [tok] videos = videos
  /\ parse_episodes (before ++ tok :: after) videos
     = parse_episodes (before ++ after) videos
  /\ parse_episodes (before ++ tok :: after) videos
     = videos ++ flat_map token_episode before ++ flat_map token_episode after.
Proof.
  intros Hbad.
  pose proof (ParserFacts.token_episode_malformed _ Hbad) as Htok.
  split; [rewrite PyCharSplit.split_char_length; lia|].
  rewrite !ParserFacts.parse_episodes_spec, !flat_map_app.
  cbn [flat_map]. rewrite Htok. cbn [app].
  rewrite app_nil_r. auto.
Qed.

Lemma malformed_token_dropped_witness :
  parse_episodes (["E1$u1"] ++ "a$b$c" :: ["E2$u2"]) []
  = parse_episodes (["E1$u1"] ++ ["E2$u2"]) [].
Proof.
  apply (malformed_token_dropped ["E1$u1"] ["E2$u2"] "a$b$c" []).
  vm_compute. discriminate.
Defined.

(** C2, as the claim words it, fails: the token ["$"] splits into two
    empty parts and is kept, so a parsed title holds an episode whose
    name and url are both empty. *)
Lemma empty_parts_are_kept :
  split "$" "$" = [""; ""]
  /\ parse_cms_data "src" (JArr [JObj [("vod_play_url", JStr "$")]])
     = Ret (mkSourceResult "src"
              [mkTitle (JStr unknown_name) (JStr "") [mkEpisode "" ""]
                       (JStr "") (JStr "")])
  /\ ~ (forall tokens e, In e (parse_episodes tokens []) ->
                         ep_name e <> "" /\ video_url e <> "").
Proof.
  split; [reflexivity|]. split; [reflexivity|].
  intros H. destruct (H ["$"] (mkEpisode "" "")) as [Hname _].
  - now left.
  - now apply Hname.
Qed.

(** C2, amended.  A token is kept as an episode exactly when it splits
    on ['$'] into two parts, empty or not: the episodes of a parsed
    title are the pairs of parts of such tokens, so neither the name nor
    the url holds a ['$'], but either may be empty. *)
Theorem episode_iff_two_parts
    (source_name : string) (cms_list : JSON) (r : SourceResult)
    (t : Title) (e : Episode) :
  parse_cms_data source_name cms_list = Ret r ->
  In t (result r) -> In e (videos t) ->
  (exists tok, split "$" tok = [ep_name e; video_url e])
  /\ count "$" (ep_name e) = 0 /\ count "$" (video_url e) = 0
  /\ (forall tokens e',
         In e' (parse_episodes tokens [])
         <-> exists tok, In tok tokens /\ split "$" tok = [ep_name e'; video_url e']).
Proof.
  intros Hparse Ht He.
  assert (Htokens : forall tokens e',
             In e' (parse_episodes tokens [])
             <-> exists tok, In tok tokens
                             /\ split "$" tok = [ep_name e'; video_url e']).
  { intros tokens e'. rewrite ParserFacts.parse_episodes_spec. cbn [app].
    rewrite in_flat_map. split; intros (tok & Hin & H); exists tok;
      (split; [exact Hin|]); now apply ParserFacts.token_episode_In. }
  assert (Hall : Forall (fun t => forall e, In e (videos t) ->
                            exists tok, split "$" tok = [ep_name e; video_url e])
                        (result r)).
  { refine (ParserInvariants.parse_cms_data_invariant _ _ _ _ _ Hparse).
    intros n p i d s _ e0 He0. cbn [videos] in He0.
    apply Htokens in He0 as (tok & _ & Hsplit). now exists tok. }
  assert (Htok : exists tok, split "$" tok = [ep_name e; video_url e]).
  { rewrite Forall_forall in Hall. exact (Hall t Ht e He). }
  split; [exact Htok|].
  destruct Htok as [tok Htok].
  pose proof (PyCharSplit.split_char_pieces "$" tok) as Hpieces.
  change (String "$" "") with "$" in Hpieces. rewrite Htok in Hpieces.
  inversion Hpieces as [|? ? Hn Hrest]; subst.
  inversion Hrest as [|? ? Hu _]; subst.
  auto.
Qed.

Lemma episode_iff_two_parts_witness :
  exists tok, split "$" tok = [""; ""].
Proof.
  apply (episode_iff_two_parts "src"
           (JArr [JObj [("vod_play_url", JStr "$")]])
           (mkSourceResult "src"
              [mkTitle (JStr unknown_name) (JStr "") [mkEpisode "" ""]
                       (JStr "") (JStr "")])
           (mkTitle (JStr unknown_name) (JStr "") [mkEpisode "" ""]
                    (JStr "") (JStr ""))
           (mkEpisode "" "")).
  - reflexivity.
  - now left.
  - now left.
Defined.

End ParserClaims.

(** * The fetch's claims *)

Module FetchClaims.

#[local] Arguments parse_cms_data : simpl never.

Lemma percent_encode_unreserved (s : string) :
  Percent.all_unreserved s = true -> Percent.percent_encode s = s.
Proof.
  induction s as [|c s IH]; cbn; [reflexivity|].
  destruct (Percent.unreserved c); cbn; [|discriminate].
  intros H. now rewrite (IH H).
Qed.

(** When the fetch cannot give a result it gives [None]. *)
Lemma fetch_none_unless (client_get : Client) (site_config : SiteConfig)
    (source : Source) (keyword : string) :
  (forall r, fetch_and_process client_get site_config source keyword
             <> Ret (Some r)) ->
  fetch_and_process client_get site_config source keyword = Ret None.
Proof.
  intros H.
  destruct (FetchFacts.fetch_returns client_get site_config source keyword)
    as [[r|] Hv]; [now destruct (H r)|exact Hv].
Qed.

(** C3, as the claim words it, fails: the keyword is pasted into the URL
    as it is, so for [a&b] the URL built differs from the URL with the
    percent-encoded keyword. *)
Lemma keyword_not_percent_encoded :
  request_url (mkSource "A" "http://a.example/api") "a&b"
  = "http://a.example/api?ac=detail&wd=a&b"
  /\ Percent.spec_request_url (mkSource "A" "http://a.example/api") "a&b"
     = "http://a.example/api?ac=detail&wd=a%26b"
  /\ request_url (mkSource "A" "http://a.example/api") "a&b"
     <> Percent.spec_request_url (mkSource "A" "http://a.example/api") "a&b".
Proof. repeat split; try reflexivity. vm_compute. discriminate. Qed.

(** Encoding never shortens a keyword, and lengthens it as soon as one
    character is not unreserved. *)
Lemma percent_encode_length (s : string) :
  String.length s <= String.length (Percent.percent_encode s)
  /\ (Percent.all_unreserved s = false ->
      String.length s < String.length (Percent.percent_encode s)).
Proof.
  induction s as [|c s [IHle IHlt]]; cbn [Percent.percent_encode Percent.all_unreserved].
  - split; [reflexivity|discriminate].
  - destruct (Percent.unreserved c); cbn [andb String.length].
    + split; [lia|]. intros H. specialize (IHlt H). lia.
    + split; [lia|]. intros _. lia.
Qed.

(** C3, amended.  For every source and every keyword the request URL is
    the source's [base_url] with ["?ac=detail&wd="] and the keyword as
    given appended; it is the URL with the percent-encoded keyword
    exactly when the keyword is made of unreserved characters only; and
    the fetch asks the client for this URL and for nothing else. *)
Theorem request_url_verbatim (source : Source) (keyword : string) :
  request_url source keyword = (base_url source ++ "?ac=detail&wd=" ++ keyword)%string
  /\ (Percent.all_unreserved keyword = true
      <-> request_url source keyword = Percent.spec_request_url source keyword)
  /\ (forall (c1 c2 : Client) (site_config : SiteConfig),
         c1 (request_url source keyword) (timeout site_config)
         = c2 (request_url source keyword) (timeout site_config) ->
         fetch_and_process c1 site_config source keyword
         = fetch_and_process c2 site_config source keyword).
Proof.
  split; [reflexivity|]. split.
  - unfold Percent.spec_request_url, request_url. split.
    + intros Hk. now rewrite (percent_encode_unreserved _ Hk).
    + intros Heq.
      destruct (Percent.all_unreserved keyword) eqn:Hk; [reflexivity|].
      apply (f_equal String.length) in Heq.
      rewrite !PyStrFacts.length_app in Heq.
      pose proof (proj2 (percent_encode_length keyword) Hk). lia.
  - intros c1 c2 site_config. apply FetchFacts.fetch_ext.
Qed.

Lemma request_url_verbatim_witness :
  request_url (mkSource "A" "http://a.example/api") "a&b"
  = ("http://a.example/api" ++ "?ac=detail&wd=" ++ "a&b")%string
  /\ request_url (mkSource "A" "http://a.example/api") "kw"
     = Percent.spec_request_url (mkSource "A" "http://a.example/api") "kw".
Proof.
  split.
  - exact (proj1 (request_url_verbatim (mkSource "A" "http://a.example/api") "a&b")).
  - apply (proj1 (proj1 (proj2
             (request_url_verbatim (mkSource "A" "http://a.example/api") "kw")))).
    reflexivity.
Defined.

(** C4, as the claim words it, fails: for a response of the expected
    shape whose only entry has no well-formed episode, the fetch returns
    the result with zero titles, not [None]. *)
Lemma fetch_returns_empty_result :
  fetch_and_process Sample.empty_net Sample.config (mkSource "A" "http://a.example/api") "kw"
  = Ret (Some (mkSourceResult "A" []))
  /\ fetch_and_process Sample.empty_net Sample.config (mkSource "A" "http://a.example/api") "kw"
     <> Ret None.
Proof. split; [reflexivity|discriminate]. Qed.

(** C4, amended.  For a response of the expected shape (code equal to 1
    and a non-empty list), if the parser's result has zero titles then
    the fetch returns that empty result; it is the generator's loop that
    drops it, emitting nothing for it. *)
Theorem empty_result_dropped_by_generator
    (client_get : Client) (site_config : SiteConfig)
    (source : Source) (keyword : string)
    (response : Response) (fields : dict) (code : JSON) (items : list JSON)
    (r : SourceResult) :
  client_get (request_url source keyword) (timeout site_config) = Ret response ->
  (200 <= status_code response < 300)%Z ->
  json_body response = Some (JObj fields) ->
  lookup "code" fields = Some code -> py_eq_one code = true ->
  lookup "list" fields = Some (JArr items) -> items <> [] ->
  parse_cms_data (src_name source) (JArr items) = Ret r ->
  result r = [] ->
  fetch_and_process client_get site_config source keyword = Ret (Some r)
  /\ (forall (E : Type) (emit : SourceResult -> E) rest,
         generator_loop emit
           (fetch_and_process client_get site_config source keyword :: rest)
         = generator_loop emit rest).
Proof.
  intros Hget Hst Hbody Hcode Hone Hlist Hne Hparse Hempty.
  assert (Hfetch : fetch_and_process client_get site_config source keyword
                   = Ret (Some r)).
  { rewrite (FetchFacts.fetch_expected_shape _ _ _ _ _ _ _ _
               Hget Hst Hbody Hcode Hone Hlist Hne).
    now rewrite Hparse. }
  split; [exact Hfetch|].
  intros E emit rest. rewrite Hfetch. cbn [generator_loop].
  rewrite Hempty. now destruct (generator_loop emit rest).
Qed.

Lemma empty_result_dropped_by_generator_witness :
  fetch_and_process Sample.empty_net Sample.config
    (mkSource "A" "http://a.example/api") "kw"
  = Ret (Some (mkSourceResult "A" [])).
Proof.
  refine (proj1 (empty_result_dropped_by_generator
            Sample.empty_net Sample.config (mkSource "A" "http://a.example/api") "kw"
            (mkResponse 200 (Some (Sample.body [Sample.entry "Film" "no-dollar-here"])))
            [("code", JInt 1); ("list", JArr [Sample.entry "Film" "no-dollar-here"])]
            (JInt 1) [Sample.entry "Film" "no-dollar-here"]
            (mkSourceResult "A" []) _ _ _ _ _ _ _ _ _));
    try reflexivity.
  - cbn. lia.
  - discriminate.
Defined.

(** C7.  The fetch always returns and never raises.  It returns [None]
    when the request raises, when the status is not 2xx, when the body
    does not decode, when the decoded body has no [code] equal to 1 and
    when it has no non-empty array under [list]; it returns a result
    only for a 2xx response whose body is a dict with [code] equal to 1
    and a non-empty array under [list], and that result is the parser's
    for this array. *)
Theorem fetch_skips_bad_responses
    (client_get : Client) (site_config : SiteConfig)
    (source : Source) (keyword : string) :
  let answer := client_get (request_url source keyword) (timeout site_config) in
  let fetched := fetch_and_process client_get site_config source keyword in
  (exists v, fetched = Ret v)
  /\ (forall e, answer = Raise e -> fetched = Ret None)
  /\ (forall response, answer = Ret response ->
        (~ (200 <= status_code response < 300)%Z -> fetched = Ret None)
        /\ (json_body response = None -> fetched = Ret None)
        /\ (forall data, json_body response = Some data ->
              ((forall code, py_get data "code" JNull = Ret code ->
                             py_eq_one code = false) -> fetched = Ret None)
              /\ ((forall items, py_get data "list" JNull = Ret (JArr items) ->
                                 items = []) -> fetched = Ret None)))
  /\ (forall r, fetched = Ret (Some r) ->
        exists response fields code items,
          answer = Ret response /\
          (200 <= status_code response < 300)%Z /\
          json_body response = Some (JObj fields) /\
          lookup "code" fields = Some code /\ py_eq_one code = true /\
          lookup "list" fields = Some (JArr items) /\ items <> [] /\
          parse_cms_data (src_name source) (JArr items) = Ret r).
Proof.
  intros answer fetched. subst answer fetched.
  split; [apply FetchFacts.fetch_returns|].
  split; [|split; [|intros r; apply FetchFacts.fetch_some_inv]].
  - intros e He. apply fetch_none_unless. intros r Hr.
    apply FetchFacts.fetch_some_inv in Hr
      as (response & fields & code & items & H & _).
    congruence.
  - intros response Hresp.
    assert (Hinv : forall r,
               fetch_and_process client_get site_config source keyword
               = Ret (Some r) ->
               exists fields code items,
                 (200 <= status_code response < 300)%Z /\
                 json_body response = Some (JObj fields) /\
                 lookup "code" fields = Some code /\ py_eq_one code = true /\
                 lookup "list" fields = Some (JArr items) /\ items <> []).
    { intros r Hr.
      apply FetchFacts.fetch_some_inv in Hr
        as (response' & fields & code & items & H & H1 & H2 & H3 & H4 & H5 & H6 & _).
      assert (response' = response) by congruence. subst response'.
      now exists fields, code, items. }
    split; [|split; [|intros data Hdata; split]].
    + intros Hst. apply fetch_none_unless. intros r Hr.
      destruct (Hinv r Hr) as (fields & code & items & H & _). contradiction.
    + intros Hbody. apply fetch_none_unless. intros r Hr.
      destruct (Hinv r Hr) as (fields & code & items & _ & H & _). congruence.
    + intros Hcode. apply fetch_none_unless. intros r Hr.
      destruct (Hinv r Hr) as (fields & code & items & _ & Hb & Hc & Hone & _).
      assert (data = JObj fields) by congruence. subst data.
      specialize (Hcode code). cbn in Hcode. rewrite Hc in Hcode.
      specialize (Hcode eq_refl). congruence.
    + intros Hlist. apply fetch_none_unless. intros r Hr.
      destruct (Hinv r Hr) as (fields & code & items & _ & Hb & _ & _ & Hl & Hne).
      assert (data = JObj fields) by congruence. subst data.
      specialize (Hlist items). cbn in Hlist. rewrite Hl in Hlist.
      now specialize (Hlist eq_refl).
Qed.

Lemma fetch_skips_bad_responses_witness :
  fetch_and_process (Sample.net 2) Sample.config
    (mkSource "C" "http://c.example/api") "kw" = Ret None.
Proof.
  apply (proj1 (proj2 (fetch_skips_bad_responses (Sample.net 2) Sample.config
                         (mkSource "C" "http://c.example/api") "kw"))
           (TransportError "timed out")).
  reflexivity.
Defined.

End FetchClaims.

(** * The streaming search's claims *)

Module SearchClaims.

#[local] Arguments fetch_and_process : simpl never.
#[local] Arguments parse_cms_data : simpl never.

Section Search.

Variable json_dumps : SourceResult -> string.
Variable net : nat -> Client.
Variable clock : nat -> nat.
Variable site_config : SiteConfig.
Variable keyword : string.
Variable sources : list Source.

Let tasks := create_tasks net clock site_config keyword 0 sources.

Lemma success_of_In (t : Task) (r : SourceResult) :
  In r (success_of t) -> task_result t = Ret (Some r) /\ result r <> [].
Proof.
  unfold success_of. destruct (task_result t) as [[r0|]|]; try (intros []).
  destruct (result r0) eqn:E; [intros []|intros [<-|[]]].
  split; [reflexivity|congruence].
Qed.

Lemma success_of_some (t : Task) (r : SourceResult) :
  task_result t = Ret (Some r) -> result r <> [] -> success_of t = [r].
Proof.
  unfold success_of. intros -> Hne. now destruct (result r).
Qed.

Lemma completed_quiet (completed : list Task) :
  as_completed tasks completed -> Forall settles_quietly completed.
Proof.
  intros [Hperm _]. eapply Permutation_Forall; [exact Hperm|].
  apply GeneratorFacts.create_tasks_quiet.
Qed.

(** The events are the framed successes, in the order of completion,
    and the generator ends normally. *)
Lemma search_events (completed : list Task) :
  as_completed tasks completed ->
  search_event_generator json_dumps completed
  = (map (sse_event json_dumps) (flat_map success_of completed), None).
Proof.
  intros H. unfold search_event_generator.
  rewrite (GeneratorFacts.generator_loop_quiet _ _ (completed_quiet _ H)).
  now rewrite GeneratorFacts.flat_map_map_success.
Qed.



(** Every success is the result of one of the sources and carries its
    name. *)
Lemma success_sources :
  Forall (fun r => exists source,
            In source sources /\ source_name r = src_name source)
         (flat_map success_of tasks).
Proof.
  apply Forall_forall. intros r Hr.
  apply in_flat_map in Hr as (t & Ht & Hr).
  apply success_of_In in Hr as [Hres _].
  destruct (GeneratorFacts.create_tasks_fetch _ _ _ _ _ _ _ Ht) as [Hsrc [j Hj]].
  exists (task_source t). split; [exact Hsrc|].
  rewrite Hj in Hres.
  apply FetchFacts.fetch_some_inv in Hres
    as (response & fields & code & items & _ & _ & _ & _ & _ & _ & _ & Hparse).
  exact (ParserInvariants.parse_cms_data_name _ _ _ Hparse).
Qed.

(** C8.  When each of the N sources either fails or succeeds with a
    result that has titles, and K of them fail, the search emits
    exactly N - K events, which are the framed results of the
    succeeding sources in some order, each carrying its source's name,
    and then ends normally whatever the order of completion; with every source failing it emits nothing
    and ends.  A completion order always exists. *)
Theorem one_event_per_success (completed : list Task) (K : nat) :
  as_completed tasks completed ->
  forallb (fun t => failed t || succeeded t) tasks = true ->
  K = List.length (filter failed tasks) ->
  snd (search_event_generator json_dumps completed) = None
  /\ List.length (fst (search_event_generator json_dumps completed))
     = List.length sources - K
  /\ Permutation (fst (search_event_generator json_dumps completed))
                 (map (sse_event json_dumps) (flat_map success_of tasks))
  /\ Forall (fun r => exists source,
                 In source sources /\ source_name r = src_name source)
            (flat_map success_of tasks)
  /\ (K = List.length sources ->
      search_event_generator json_dumps completed = ([], None))
  /\ as_completed tasks (completion_order tasks).
Proof.
  intros Hdone Hpart HK.
  rewrite (search_events _ Hdone). cbn [fst snd].
  pose proof (GeneratorFacts.partition_count _ Hpart) as Hcount.
  pose proof (GeneratorFacts.create_tasks_length net clock site_config keyword sources 0)
    as Hlen.
  fold tasks in Hlen.
  destruct Hdone as [Hperm Hsorted].
  assert (Hsucc : Permutation (flat_map success_of completed)
                              (flat_map success_of tasks)).
  { apply Permutation_flat_map, Permutation_sym, Hperm. }
  assert (Hn : List.length (flat_map success_of completed)
               = List.length sources - K).
  { rewrite (Permutation_length Hsucc), GeneratorFacts.successes_length. lia. }
  split; [reflexivity|]. split; [now rewrite length_map|].
  split; [now apply Permutation_map|].
  split; [apply success_sources|].
  split; [|apply GeneratorFacts.completion_order_ok].
  intros HKN. rewrite HKN, Nat.sub_diag in Hn.
  apply length_zero_iff_nil in Hn. now rewrite Hn.
Qed.

(** C9.  Events come in the order of completion, not in the order of
    the source list: of two sources that both succeed, the one whose
    task completes strictly earlier has its event before the other's,
    wherever the two stand in the list. *)
Theorem emission_follows_completion
    (completed : list Task) (a b : Task) (ra rb : SourceResult) :
  as_completed tasks completed ->
  In a tasks -> In b tasks ->
  settled_at b < settled_at a ->
  task_result a = Ret (Some ra) -> result ra <> [] ->
  task_result b = Ret (Some rb) -> result rb <> [] ->
  exists before between after,
    fst (search_event_generator json_dumps completed)
    = before ++ sse_event json_dumps rb
             :: between ++ sse_event json_dumps ra :: after.
Proof.
  intros Hdone Ha Hb Hlt Hra Hnea Hrb Hneb.
  rewrite (search_events _ Hdone). cbn [fst].
  destruct Hdone as [Hperm Hsorted].
  apply (Permutation_in _ Hperm) in Ha, Hb.
  destruct (GeneratorFacts.sorted_earlier_first _ _ _ Hsorted Ha Hb Hlt)
    as (l1 & l2 & l3 & ->).
  exists (map (sse_event json_dumps) (flat_map success_of l1)),
         (map (sse_event json_dumps) (flat_map success_of l2)),
         (map (sse_event json_dumps) (flat_map success_of l3)).
  rewrite flat_map_app. cbn [flat_map].
  rewrite flat_map_app. cbn [flat_map].
  rewrite (success_of_some _ _ Hra Hnea), (success_of_some _ _ Hrb Hneb).
  rewrite !map_app. reflexivity.
Qed.

End Search.


Lemma one_event_per_success_witness :
  List.length (fst (search_event_generator Sample.dumps (completion_order Sample.tasks)))
  = 3 - 1.
Proof.
  refine (proj1 (proj2 (one_event_per_success Sample.dumps Sample.net Sample.clock
                          Sample.config "kw" (base_urls Sample.config)
                          (completion_order Sample.tasks) 1
                          (GeneratorFacts.completion_order_ok Sample.tasks) _ _)));
    reflexivity.
Defined.

(** A is first in the source list and B second; B answers first and its
    event comes first. *)
Lemma emission_follows_completion_witness :
  exists before between after,
    fst (search_event_generator Sample.dumps (completion_order Sample.tasks))
    = before ++ sse_event Sample.dumps
                  (mkSourceResult "B"
                     [mkTitle (JStr "Show") (JStr "")
                        [mkEpisode "E1" "u1"; mkEpisode "E2" "u2"] (JInt 7) (JStr "")])
             :: between
             ++ sse_event Sample.dumps
                  (mkSourceResult "A"
                     [mkTitle (JStr "Film") (JStr "")
                        [mkEpisode "A" "url1"; mkEpisode "B" "url2"] (JInt 7) (JStr "")])
             :: after.
Proof.
  refine (emission_follows_completion Sample.dumps Sample.net Sample.clock
            Sample.config "kw" (base_urls Sample.config)
            (completion_order Sample.tasks)
            (nth 0 Sample.tasks (mkTask (mkSource "" "") 0 (Ret None)))
            (nth 1 Sample.tasks (mkTask (mkSource "" "") 0 (Ret None)))
            _ _
            (GeneratorFacts.completion_order_ok Sample.tasks) _ _ _ _ _ _ _).
  - left. reflexivity.
  - right. left. reflexivity.
  - cbn. lia.
  - reflexivity.
  - discriminate.
  - reflexivity.
  - discriminate.
Defined.

Example sample_search :
  yielded (completion_order Sample.tasks)
  = ([mkSourceResult "B"
        [mkTitle (JStr "Show") (JStr "")
           [mkEpisode "E1" "u1"; mkEpisode "E2" "u2"] (JInt 7) (JStr "")];
      mkSourceResult "A"
        [mkTitle (JStr "Film") (JStr "")
           [mkEpisode "A" "url1"; mkEpisode "B" "url2"] (JInt 7) (JStr "")]],
     None).
Proof. reflexivity. Qed.

End SearchClaims.

(** * The configuration endpoint's claim *)

Module ConfigClaims.

(** The handler either writes the file, replaces [site_config] and
    answers with the new configuration, or raises the 500 error and
    leaves [site_config] as it was. *)
Lemma update_config_cases (env : ConfigEnv) (config_data : SiteConfig) (st : AppState) :
  (exists json,
      model_dump_json env config_data = Ret json /\
      write_outcome env "config.json" json = Written /\
      update_config env config_data st
      = (Ret (mkReply "Configuration updated and saved successfully." config_data),
         mkAppState config_data (Some json)))
  \/ (exists e,
        fst (update_config env config_data st)
        = Raise (HTTPException 500 ("Error updating config: " ++ exn_message e))
        /\ site_config_of (snd (update_config env config_data st))
           = site_config_of st).
Proof.
  unfold update_config, mtry, mbind, lift, write_file, set_site_config,
    get_site_config, mret.
  destruct (model_dump_json env config_data) as [json|e] eqn:Hdump.
  - destruct (write_outcome env "config.json" json) as [e|e w|] eqn:Hw.
    + right. exists e. now split.
    + right. exists e. now split.
    + left. exists json. now repeat split.
  - right. exists e. now split.
Qed.

(** C10.  If serializing the configuration raises, or opening or writing
    [config.json] raises, the handler raises the HTTP 500 error whose
    detail names the exception, and [site_config] is what it was before
    the request. *)
Theorem failed_update_keeps_config
    (env : ConfigEnv) (config_data : SiteConfig) (st : AppState) (e : exn) :
  model_dump_json env config_data = Raise e
  \/ (exists json,
        model_dump_json env config_data = Ret json /\
        (write_outcome env "config.json" json = OpenRaises e
         \/ exists written,
              write_outcome env "config.json" json = WriteRaises e written)) ->
  fst (update_config env config_data st)
  = Raise (HTTPException 500 ("Error updating config: " ++ exn_message e))
  /\ site_config_of (snd (update_config env config_data st)) = site_config_of st.
Proof.
  unfold update_config, mtry, mbind, lift, write_file, set_site_config,
    get_site_config, mret.
  intros [Hdump|(json & Hdump & [Hw|[written Hw]])]; rewrite Hdump;
    try rewrite Hw; now split.
Qed.

Lemma failed_update_keeps_config_witness :
  fst (update_config Sample.failing_disk Sample.new_config Sample.state0)
  = Raise (HTTPException 500 "Error updating config: No space left on device")
  /\ site_config_of
       (snd (update_config Sample.failing_disk Sample.new_config Sample.state0))
     = Sample.config.
Proof.
  apply (failed_update_keeps_config Sample.failing_disk Sample.new_config
           Sample.state0 (OSError "No space left on device")).
  right. exists "{}". split; [reflexivity|].
  right. exists "". reflexivity.
Defined.

End ConfigClaims.

(** * Further properties of the parser *)

Module ParserMore.
Import PyStr.

(** One turn of the outer loop, in closed form. *)
Lemma parse_item_spec (item : JSON) (results : list Title) :
  parse_item item results
  = if entry_ok item then Ret (results ++ entry_titles item)
    else Raise AttributeError.
Proof.
  unfold entry_ok, entry_titles, entry_episodes, play_url_of, parse_item.
  destruct item as [| | | | | |fields]; try reflexivity.
  cbn [py_get].
  destruct (lookup "vod_play_url" fields) as [[| | | |s| |]|];
    cbn [bind py_split]; try reflexivity.
  - change (parse_episodes (split "#" (hd "" (split "$$$" s))) [])
      with (episodes_of s).
    destruct (episodes_of s); [now rewrite app_nil_r|].
    unfold get_or.
    destruct (lookup "vod_name" fields), (lookup "vod_pic" fields),
      (lookup "vod_id" fields), (lookup "vod_douban_id" fields); reflexivity.
  - change (parse_episodes (split "#" (hd "" (split "$$$" ""))) [])
      with (episodes_of "").
    change (episodes_of "") with (@nil Episode). cbn iota.
    now rewrite app_nil_r.
Qed.

(** The outer loop, in closed form. *)
Lemma parse_items_spec (items : list JSON) :
  forall results,
    parse_items items results
    = if forallb entry_ok items
      then Ret (results ++ flat_map entry_titles items)
      else Raise AttributeError.
Proof.
  induction items as [|item rest IH]; intros results; cbn [parse_items forallb flat_map].
  - now rewrite app_nil_r.
  - rewrite parse_item_spec.
    destruct (entry_ok item); cbn; [|reflexivity].
    rewrite IH. destruct (forallb entry_ok rest); [|reflexivity].
    now rewrite List.app_assoc.
Qed.

Lemma parse_array_spec (source_name : string) (items : list JSON) :
  parse_cms_data source_name (JArr items)
  = if forallb entry_ok items
    then Ret (mkSourceResult source_name (flat_map entry_titles items))
    else Raise AttributeError.
Proof.
  unfold parse_cms_data. cbn. rewrite parse_items_spec.
  now destruct (forallb entry_ok items).
Qed.

Lemma bad_entry_raises (source_name : string) (items : list JSON) (item : JSON) :
  In item items -> play_url_of item = None ->
  parse_cms_data source_name (JArr items) = Raise AttributeError.
Proof.
  intros Hin Hnone. rewrite parse_array_spec.
  destruct (forallb entry_ok items) eqn:E; [|reflexivity].
  rewrite forallb_forall in E. specialize (E item Hin).
  unfold entry_ok in E. now rewrite Hnone in E.
Qed.

(** The parser returns exactly when every entry is a dict whose
    ["vod_play_url"] is a str or is missing; a single entry of another
    kind makes the whole call raise [AttributeError], whatever the other
    entries hold. *)
Theorem parse_returns_iff_entries_ok (source_name : string) (items : list JSON) :
  ((exists r, parse_cms_data source_name (JArr items) = Ret r)
   <-> Forall (fun item => exists s, play_url_of item = Some s) items)
  /\ (forall item, In item items -> play_url_of item = None ->
        parse_cms_data source_name (JArr items) = Raise AttributeError).
Proof.
  rewrite parse_array_spec.
  assert (Hall : forallb entry_ok items = true
                 <-> Forall (fun item => exists s, play_url_of item = Some s) items).
  { rewrite forallb_forall, Forall_forall. unfold entry_ok.
    split; intros H item Hin; specialize (H item Hin);
      destruct (play_url_of item); eauto; [discriminate|].
    destruct H; discriminate. }
  split.
  - rewrite <- Hall. destruct (forallb entry_ok items); split; eauto.
    + intros [r Hr]. discriminate.
    + discriminate.
  - intros item Hin Hnone.
    pose proof (bad_entry_raises source_name items item Hin Hnone) as H.
    now rewrite parse_array_spec in H.
Qed.

Lemma parse_returns_iff_entries_ok_witness :
  parse_cms_data "src"
    (JArr [Sample.entry "Film" "A$u"; JObj [("vod_play_url", JNull)]])
  = Raise AttributeError.
Proof.
  apply (proj2 (parse_returns_iff_entries_ok "src"
                  [Sample.entry "Film" "A$u"; JObj [("vod_play_url", JNull)]])
           (JObj [("vod_play_url", JNull)])).
  - right. left. reflexivity.
  - reflexivity.
Defined.

(** The title built for an entry with episodes takes each field from
    the entry as it is, [null] included; only a missing key is replaced,
    ["vod_name"] by the placeholder and the other three by the empty
    string. *)
Theorem title_fields_and_defaults (fields : dict) (s : string) (results : list Title) :
  play_url_of (JObj fields) = Some s ->
  episodes_of s <> [] ->
  parse_item (JObj fields) results
  = Ret (results ++
         [mkTitle (get_or fields "vod_name" (JStr unknown_name))
                  (get_or fields "vod_pic" (JStr ""))
                  (episodes_of s)
                  (get_or fields "vod_id" (JStr ""))
                  (get_or fields "vod_douban_id" (JStr ""))]).
Proof.
  intros Hs Hne. rewrite parse_item_spec.
  unfold entry_ok, entry_titles, entry_episodes. rewrite Hs.
  destruct (episodes_of s); [congruence|reflexivity].
Qed.

Lemma title_fields_and_defaults_witness :
  parse_item (JObj [("vod_name", JNull); ("vod_play_url", JStr "E$u")]) []
  = Ret ([] ++ [mkTitle JNull (JStr "") (episodes_of "E$u") (JStr "") (JStr "")]).
Proof.
  apply (title_fields_and_defaults
           [("vod_name", JNull); ("vod_play_url", JStr "E$u")] "E$u" []).
  - reflexivity.
  - discriminate.
Defined.

Lemma token_episode_length (tok : string) :
  List.length (token_episode tok) = if (count "$" tok =? 1)%nat then 1 else 0.
Proof.
  destruct (count "$" tok =? 1)%nat eqn:E.
  - apply Nat.eqb_eq, ParserFacts.two_parts_count, ParserFacts.two_parts_shape in E
      as (n & u & E).
    now rewrite (ParserFacts.token_episode_wellformed _ _ _ E).
  - apply Nat.eqb_neq in E. rewrite <- ParserFacts.two_parts_count in E.
    now rewrite (ParserFacts.token_episode_malformed _ E).
Qed.

Lemma episodes_of_tokens (s : string) :
  episodes_of s = flat_map token_episode (tokens_of s).
Proof. unfold episodes_of. now rewrite ParserFacts.parse_episodes_spec. Qed.

(** An entry has as many episodes as its first play scheme has tokens
    with exactly one ['$'], and it has none exactly when no token is of
    that kind. *)
Theorem episodes_counted_by_dollars (s : string) :
  List.length (episodes_of s)
  = List.length (filter (fun tok => (count "$" tok =? 1)%nat) (tokens_of s))
  /\ has_episodes (episodes_of s)
     = existsb (fun tok => (count "$" tok =? 1)%nat) (tokens_of s).
Proof.
  rewrite episodes_of_tokens.
  induction (tokens_of s) as [|tok l [IHlen IHhas]]; [split; reflexivity|].
  cbn [flat_map filter existsb]. rewrite length_app, token_episode_length, IHlen.
  pose proof (token_episode_length tok) as Htok.
  destruct (count "$" tok =? 1)%nat; cbn [orb].
  - split; [reflexivity|].
    destruct (token_episode tok); [discriminate|reflexivity].
  - split; [reflexivity|].
    destruct (token_episode tok); [exact IHhas|discriminate].
Qed.

(** Parsing two lists one after the other: when both parse, the titles
    of the concatenation are the titles of the first list followed by
    those of the second; when either raises, so does the concatenation. *)
Theorem parse_concatenation (source_name : string) (a b : list JSON) :
  parse_cms_data source_name (JArr (a ++ b))
  = match parse_cms_data source_name (JArr a),
          parse_cms_data source_name (JArr b) with
    | Ret ra, Ret rb => Ret (mkSourceResult source_name (result ra ++ result rb))
    | Raise e, _ => Raise e
    | _, Raise e => Raise e
    end.
Proof.
  rewrite !parse_array_spec, forallb_app, flat_map_app.
  destruct (forallb entry_ok a), (forallb entry_ok b); reflexivity.
Qed.

Lemma videos_of_titles (items : list JSON) :
  map videos (flat_map entry_titles items)
  = filter has_episodes (map entry_episodes items).
Proof.
  induction items as [|item rest IH]; [reflexivity|].
  cbn [flat_map map filter]. rewrite map_app, IH.
  unfold entry_titles.
  destruct item as [| | | | | |fields]; try reflexivity;
    cbn; try (unfold entry_episodes, play_url_of; cbn; reflexivity).
  destruct (entry_episodes (JObj fields)); reflexivity.
Qed.

(** When the parser returns, the episode lists of its titles are, in
    order, the episode lists of the entries that have episodes: entries
    without episodes are skipped, nothing is reordered or merged, and
    there are at most as many titles as entries. *)
Theorem titles_follow_entries (given : string) (items : list JSON) (r : SourceResult) :
  parse_cms_data given (JArr items) = Ret r ->
  source_name r = given
  /\ map videos (result r) = filter has_episodes (map entry_episodes items)
  /\ List.length (result r) <= List.length items.
Proof.
  rewrite parse_array_spec.
  destruct (forallb entry_ok items); [|discriminate].
  intros [= <-]. cbn [source_name result].
  split; [reflexivity|].
  pose proof (videos_of_titles items) as Hv.
  split; [exact Hv|].
  rewrite <- (length_map videos), Hv.
  rewrite <- (length_map entry_episodes items).
  apply filter_length_le.
Qed.

Lemma titles_follow_entries_witness :
  map videos
      (result (mkSourceResult "src"
         [mkTitle (JStr "Show") (JStr "") [mkEpisode "E" "u"] (JInt 7) (JStr "")]))
  = filter has_episodes
      (map entry_episodes [Sample.entry "Film" "none"; Sample.entry "Show" "E$u"]).
Proof.
  apply (titles_follow_entries "src"
           [Sample.entry "Film" "none"; Sample.entry "Show" "E$u"]).
  reflexivity.
Defined.

End ParserMore.

(** * Reading back a written play list *)

Module RoundTrip.
Import PyStr.

Lemma count_app (c : ascii) (a b : string) :
  count c (a ++ b) = count c a + count c b.
Proof.
  induction a as [|d a IH]; cbn [count append]; [reflexivity|].
  rewrite IH. lia.
Qed.

Lemma dollar_followed_plain (s : string) :
  count "$" s = 0 -> dollar_followed s = true.
Proof.
  induction s as [|c s IH]; cbn [count dollar_followed]; [reflexivity|].
  rewrite (Ascii.eqb_sym c "$").
  destruct (Ascii.eqb "$" c); cbn [andb Nat.add]; [discriminate|exact IH].
Qed.

Lemma dollar_followed_app (a b : string) :
  dollar_followed a = true -> dollar_followed b = true ->
  dollar_followed (a ++ b) = true.
Proof.
  intros Ha Hb. induction a as [|c a IH]; [exact Hb|].
  cbn [dollar_followed append] in *.
  apply andb_true_iff in Ha as [Hc Ha]. apply andb_true_iff. split; [|now apply IH].
  destruct (Ascii.eqb c "$"); [|reflexivity].
  destruct a as [|d a]; [discriminate|exact Hc].
Qed.

(** A string in which every ['$'] is followed by another character is
    never cut by ["$$$"]. *)
Lemma first_piece_dollar_followed (enc x : string) :
  dollar_followed enc = true ->
  first_piece "$$$" (enc ++ x) = (enc ++ first_piece "$$$" x)%string.
Proof.
  induction enc as [|c enc IH]; [reflexivity|].
  cbn [dollar_followed]. intros H. apply andb_true_iff in H as [Hc Henc].
  change ((String c enc ++ x)%string) with (String c (enc ++ x)).
  rewrite PyStrFacts.first_piece_cons.
  assert (Hp : prefix "$$$" (String c (enc ++ x)) = false).
  { cbn [prefix]. destruct (ascii_dec "$" c) as [<-|]; [|reflexivity].
    cbn in Hc. destruct enc as [|d enc]; [discriminate|].
    cbn [append prefix]. destruct (ascii_dec "$" d) as [<-|]; [|reflexivity].
    discriminate. }
  rewrite Hp, (IH Henc). reflexivity.
Qed.

Lemma writable_inv (e : Episode) :
  writable e = true ->
  count "$" (ep_name e) = 0 /\ count "#" (ep_name e) = 0 /\
  count "$" (video_url e) = 0 /\ count "#" (video_url e) = 0 /\
  video_url e <> "".
Proof.
  unfold writable, plain. intros H.
  apply andb_true_iff in H as [H Hne]. apply andb_true_iff in H as [Hn Hu].
  apply andb_true_iff in Hn as [Hn1 Hn2]. apply andb_true_iff in Hu as [Hu1 Hu2].
  apply Nat.eqb_eq in Hn1, Hn2, Hu1, Hu2.
  split; [exact Hn1|]. split; [exact Hn2|]. split; [exact Hu1|].
  split; [exact Hu2|].
  intros E. rewrite E in Hne. discriminate.
Qed.

Lemma token_splits_back (e : Episode) :
  writable e = true ->
  split "$" (episode_token e) = [ep_name e; video_url e].
Proof.
  intros H. apply writable_inv in H as (Hn & _ & Hu & _).
  unfold episode_token. change (("$" ++ video_url e)%string) with (String "$" (video_url e)).
  rewrite (PyCharSplit.split_char_app "$" _ _ Hn).
  now rewrite (PyCharSplit.split_char_absent "$" _ Hu).
Qed.

Lemma token_has_no_hash (e : Episode) :
  writable e = true -> count "#" (episode_token e) = 0.
Proof.
  intros H. apply writable_inv in H as (_ & Hn & _ & Hu & _).
  unfold episode_token. rewrite !count_app, Hn, Hu. reflexivity.
Qed.

Lemma token_dollar_followed (e : Episode) :
  writable e = true -> dollar_followed (episode_token e) = true.
Proof.
  intros H. apply writable_inv in H as (Hn & _ & Hu & _ & Hne).
  unfold episode_token.
  apply dollar_followed_app; [now apply dollar_followed_plain|].
  change (("$" ++ video_url e)%string) with (String "$" (video_url e)).
  cbn [dollar_followed]. rewrite Ascii.eqb_refl.
  destruct (video_url e) as [|d u] eqn:E; [congruence|].
  rewrite <- E in *. rewrite (dollar_followed_plain _ Hu), andb_true_r.
  rewrite E in Hu. cbn [count] in Hu. rewrite (Ascii.eqb_sym d "$").
  destruct (Ascii.eqb "$" d); [discriminate|reflexivity].
Qed.

Lemma joined_dollar_followed (eps : list Episode) :
  forallb writable eps = true ->
  dollar_followed (join "#" (map episode_token eps)) = true.
Proof.
  induction eps as [|e eps IH]; [reflexivity|].
  cbn [forallb map]. intros H. apply andb_true_iff in H as [He Heps].
  destruct eps as [|e' eps]; [now apply token_dollar_followed|].
  change (join "#" (episode_token e :: map episode_token (e' :: eps)))
    with ((episode_token e ++ "#" ++ join "#" (map episode_token (e' :: eps)))%string).
  apply dollar_followed_app; [now apply token_dollar_followed|].
  change (("#" ++ join "#" (map episode_token (e' :: eps)))%string)
    with (String "#" (join "#" (map episode_token (e' :: eps)))).
  cbn [dollar_followed]. now rewrite (IH Heps).
Qed.

Lemma tokens_read_back (eps : list Episode) :
  forallb writable eps = true ->
  flat_map token_episode (map episode_token eps) = eps.
Proof.
  induction eps as [|e eps IH]; [reflexivity|].
  cbn [forallb map flat_map]. intros H. apply andb_true_iff in H as [He Heps].
  rewrite (ParserFacts.token_episode_wellformed _ _ _ (token_splits_back _ He)).
  rewrite (IH Heps). now destruct e.
Qed.

Lemma joined_read_back (eps : list Episode) :
  forallb writable eps = true ->
  parse_episodes (split "#" (join "#" (map episode_token eps))) [] = eps.
Proof.
  intros H. destruct eps as [|e eps]; [reflexivity|].
  rewrite (PyCharSplit.split_join "#").
  - rewrite ParserFacts.parse_episodes_spec. cbn [app]. now apply tokens_read_back.
  - discriminate.
  - apply Forall_forall. intros tok Htok.
    apply in_map_iff in Htok as (e0 & <- & Hin).
    apply token_has_no_hash.
    rewrite forallb_forall in H. now apply H.
Qed.

(** Episodes whose names and urls hold neither ['$'] nor ['#'], and
    whose urls are not empty, are read back as they are, in order, from
    the string that joins their [name$url] tokens with ['#'] -- alone or
    followed by ["$$$"] and any further play schemes. *)
Theorem episodes_read_back (eps : list Episode) (tail : string) :
  forallb writable eps = true ->
  episodes_of (join "#" (map episode_token eps)) = eps
  /\ episodes_of (join "#" (map episode_token eps) ++ "$$$" ++ tail) = eps.
Proof.
  intros H. pose proof (joined_dollar_followed _ H) as Hdf.
  unfold episodes_of.
  change (hd "" (split "$$$" (join "#" (map episode_token eps))))
    with (first_piece "$$$" (join "#" (map episode_token eps))).
  change (hd "" (split "$$$" (join "#" (map episode_token eps) ++ "$$$" ++ tail)))
    with (first_piece "$$$" (join "#" (map episode_token eps) ++ "$$$" ++ tail)).
  rewrite <- (PyStrFacts.app_empty_r (join "#" (map episode_token eps))) at 1.
  rewrite !(first_piece_dollar_followed _ _ Hdf).
  rewrite (PyStrFacts.first_piece_at_sep "$$$" tail).
  cbn [first_piece split split_go hd]. rewrite PyStrFacts.app_empty_r.
  split; now apply joined_read_back.
Qed.

Lemma episodes_read_back_witness :
  episodes_of (join "#" (map episode_token [mkEpisode "E1" "u1"; mkEpisode "" "u2"])
               ++ "$$$" ++ "other$x")
  = [mkEpisode "E1" "u1"; mkEpisode "" "u2"].
Proof.
  apply (episodes_read_back [mkEpisode "E1" "u1"; mkEpisode "" "u2"] "other$x").
  reflexivity.
Defined.

End RoundTrip.

(** * Further properties of the per-source fetch *)

Module FetchMore.

#[local] Arguments parse_cms_data : simpl never.

(** For a 2xx response whose body is a dict with [code] equal to 1 and
    a non-empty array under [list], all of whose entries can be
    processed, the fetch returns the result named after the source whose
    titles are those of the entries, in order. *)
Theorem fetch_parses_expected_shape
    (client_get : Client) (site_config : SiteConfig)
    (source : Source) (keyword : string)
    (response : Response) (fields : dict) (code : JSON) (items : list JSON) :
  client_get (request_url source keyword) (timeout site_config) = Ret response ->
  (200 <= status_code response < 300)%Z ->
  json_body response = Some (JObj fields) ->
  lookup "code" fields = Some code -> py_eq_one code = true ->
  lookup "list" fields = Some (JArr items) -> items <> [] ->
  forallb entry_ok items = true ->
  fetch_and_process client_get site_config source keyword
  = Ret (Some (mkSourceResult (src_name source) (flat_map entry_titles items))).
Proof.
  intros Hget Hst Hbody Hcode Hone Hlist Hne Hok.
  rewrite (FetchFacts.fetch_expected_shape _ _ _ _ _ _ _ _
             Hget Hst Hbody Hcode Hone Hlist Hne).
  now rewrite ParserMore.parse_array_spec, Hok.
Qed.

Lemma fetch_parses_expected_shape_witness :
  fetch_and_process (Sample.net 1) Sample.config
    (mkSource "B" "http://b.example/api") "kw"
  = Ret (Some (mkSourceResult "B"
                 (flat_map entry_titles [Sample.entry "Show" "E1$u1#broken#E2$u2"]))).
Proof.
  refine (fetch_parses_expected_shape
            (Sample.net 1) Sample.config (mkSource "B" "http://b.example/api") "kw"
            (mkResponse 200 (Some (Sample.body [Sample.entry "Show" "E1$u1#broken#E2$u2"])))
            [("code", JInt 1);
             ("list", JArr [Sample.entry "Show" "E1$u1#broken#E2$u2"])]
            (JInt 1) [Sample.entry "Show" "E1$u1#broken#E2$u2"]
            _ _ _ _ _ _ _ _); try reflexivity.
  - cbn. lia.
  - discriminate.
Defined.

(** One entry that is not a dict, or whose ["vod_play_url"] is not a
    str, loses the whole source: the parser's exception is swallowed and
    the fetch returns [None], whatever the other entries hold. *)
Theorem one_bad_entry_loses_source
    (client_get : Client) (site_config : SiteConfig)
    (source : Source) (keyword : string)
    (response : Response) (fields : dict) (code : JSON) (items : list JSON)
    (item : JSON) :
  client_get (request_url source keyword) (timeout site_config) = Ret response ->
  (200 <= status_code response < 300)%Z ->
  json_body response = Some (JObj fields) ->
  lookup "code" fields = Some code -> py_eq_one code = true ->
  lookup "list" fields = Some (JArr items) ->
  In item items -> play_url_of item = None ->
  fetch_and_process client_get site_config source keyword = Ret None.
Proof.
  intros Hget Hst Hbody Hcode Hone Hlist Hin Hbad.
  assert (Hne : items <> []) by (intros ->; destruct Hin).
  rewrite (FetchFacts.fetch_expected_shape _ _ _ _ _ _ _ _
             Hget Hst Hbody Hcode Hone Hlist Hne).
  now rewrite (ParserMore.bad_entry_raises _ items item Hin Hbad).
Qed.

Lemma one_bad_entry_loses_source_witness :
  fetch_and_process
    (fun _ _ => Sample.ok [Sample.entry "Film" "A$u"; JObj [("vod_play_url", JNull)]])
    Sample.config (mkSource "A" "http://a.example/api") "kw"
  = Ret None.
Proof.
  refine (one_bad_entry_loses_source
            (fun _ _ => Sample.ok [Sample.entry "Film" "A$u"; JObj [("vod_play_url", JNull)]])
            Sample.config (mkSource "A" "http://a.example/api") "kw"
            (mkResponse 200
               (Some (Sample.body [Sample.entry "Film" "A$u"; JObj [("vod_play_url", JNull)]])))
            [("code", JInt 1);
             ("list", JArr [Sample.entry "Film" "A$u"; JObj [("vod_play_url", JNull)]])]
            (JInt 1) [Sample.entry "Film" "A$u"; JObj [("vod_play_url", JNull)]]
            (JObj [("vod_play_url", JNull)])
            _ _ _ _ _ _ _ _); try reflexivity.
  - cbn. lia.
  - right. left. reflexivity.
Defined.

End FetchMore.

(** * Further properties of the streaming search *)

Module SearchMore.

#[local] Arguments fetch_and_process : simpl never.

(** A task that settles quietly is of exactly one of three kinds. *)
Lemma three_kinds (l : list Task) :
  Forall settles_quietly l ->
  List.length (filter succeeded l) + List.length (filter failed l)
  + List.length (filter empty_handed l) = List.length l.
Proof.
  induction 1 as [|t l [v Hv] _ IH]; [reflexivity|].
  cbn [filter List.length].
  destruct (succeeded t) eqn:E1, (failed t) eqn:E2, (empty_handed t) eqn:E3;
    cbn [List.length]; try lia; exfalso;
    unfold succeeded, failed, empty_handed in E1, E2, E3; rewrite Hv in *;
    (destruct v as [r|]; [destruct (result r)|]); discriminate.
Qed.

Lemma filter_length_perm (f : Task -> bool) (l l' : list Task) :
  Permutation l l' -> List.length (filter f l) = List.length (filter f l').
Proof.
  induction 1; cbn [filter]; try reflexivity.
  - destruct (f x); cbn [List.length]; congruence.
  - destruct (f x), (f y); reflexivity.
  - congruence.
Qed.

Lemma create_tasks_sources (net : nat -> Client) (clock : nat -> nat)
    (site_config : SiteConfig) (keyword : string) (sources : list Source) :
  forall i, map task_source (create_tasks net clock site_config keyword i sources)
            = sources.
Proof.
  induction sources as [|source rest IH]; intros i; cbn; [reflexivity|].
  now rewrite IH.
Qed.

(** The loop does not guard [await future]: at the first future that
    raises, the generator ends with that exception, having emitted the
    events of the futures before it and none of those after it. *)
Theorem loop_stops_at_first_raise {E : Type} (emit : SourceResult -> E)
    (before : list (option SourceResult)) (e : exn)
    (after : list (res (option SourceResult))) :
  generator_loop emit (map Ret before ++ Raise e :: after)
  = (fst (generator_loop emit (map Ret before)), Some e)
  /\ snd (generator_loop emit (map Ret before)) = None.
Proof.
  induction before as [|v before [IH1 IH2]]; [split; reflexivity|].
  cbn [map app generator_loop]. rewrite IH1.
  destruct (generator_loop emit (map Ret before)) as [events ending].
  cbn [fst snd] in *. subst ending.
  destruct v as [r|]; [destruct (result r)|]; split; reflexivity.
Qed.

Section Counting.

Variable json_dumps : SourceResult -> string.
Variable net : nat -> Client.
Variable clock : nat -> nat.
Variable site_config : SiteConfig.
Variable keyword : string.
Variable sources : list Source.

(** Whatever the sources answer and in whatever order they complete,
    the search ends normally with one event per source that returned a
    result with titles: the number of events plus the number of sources
    that failed plus the number that returned a result without titles
    is the number of sources. *)
Theorem events_counted (completed : list Task) :
  as_completed (create_tasks net clock site_config keyword 0 sources) completed ->
  snd (search_event_generator json_dumps completed) = None
  /\ List.length (fst (search_event_generator json_dumps completed))
     = List.length (filter succeeded
                      (create_tasks net clock site_config keyword 0 sources))
  /\ List.length (fst (search_event_generator json_dumps completed))
     + List.length (filter failed
                      (create_tasks net clock site_config keyword 0 sources))
     + List.length (filter empty_handed
                      (create_tasks net clock site_config keyword 0 sources))
     = List.length sources.
Proof.
  intros Hdone.
  rewrite (SearchClaims.search_events json_dumps net clock site_config keyword
             sources completed Hdone).
  cbn [fst snd]. destruct Hdone as [Hperm _].
  rewrite length_map, GeneratorFacts.successes_length.
  rewrite <- (filter_length_perm succeeded _ _ Hperm).
  pose proof (three_kinds _ (GeneratorFacts.create_tasks_quiet
                               net clock site_config keyword sources 0)) as H3.
  rewrite GeneratorFacts.create_tasks_length in H3.
  split; [reflexivity|]. split; [reflexivity|]. exact H3.
Qed.

End Counting.

Lemma events_counted_witness :
  List.length (fst (search_event_generator Sample.dumps (completion_order Sample.tasks)))
  = List.length (filter succeeded Sample.tasks).
Proof.
  exact (proj1 (proj2 (events_counted Sample.dumps Sample.net Sample.clock
                         Sample.config "kw" (base_urls Sample.config)
                         (completion_order Sample.tasks)
                         (GeneratorFacts.completion_order_ok Sample.tasks)))).
Defined.

End SearchMore.

(** * The endpoints together *)

Module EndpointFacts.

#[local] Arguments fetch_and_process : simpl never.

Lemma search_started (keyword : string) (st : AppState) :
  keyword <> "" ->
  search keyword st
  = (Ret (StreamingResponse keyword (base_urls (site_config_of st))), st).
Proof.
  intros Hk. unfold search.
  destruct (String.eqb keyword "") eqn:E; [|reflexivity].
  now apply String.eqb_eq in E.
Qed.

Lemma update_succeeds (env : ConfigEnv) (config_data : SiteConfig)
    (st : AppState) (json : string) :
  model_dump_json env config_data = Ret json ->
  write_outcome env "config.json" json = Written ->
  update_config env config_data st
  = (Ret (mkReply "Configuration updated and saved successfully." config_data),
     mkAppState config_data (Some json)).
Proof.
  intros Hdump Hw.
  unfold update_config, mtry, mbind, lift, write_file, set_site_config,
    get_site_config, mret.
  now rewrite Hdump, Hw.
Qed.

(** A search keeps the sources it was given: when the configuration is
    replaced after the handler has returned and before the stream is
    started, the stream still creates one task per source of the old
    list, in the old order, while each fetch reads the new configuration
    (its timeout).  With an empty keyword the handler answers with the
    error dict, leaves the state alone and no task is ever created. *)
Theorem search_keeps_its_sources
    (net : nat -> Client) (clock : nat -> nat) (env : ConfigEnv)
    (keyword : string) (config_data : SiteConfig) (st : AppState) (json : string) :
  model_dump_json env config_data = Ret json ->
  write_outcome env "config.json" json = Written ->
  let reply := fst (search keyword st) in
  let st' := snd (update_config env config_data (snd (search keyword st))) in
  (keyword <> "" ->
     stream_tasks net clock st' reply
     = create_tasks net clock config_data keyword 0 (base_urls (site_config_of st))
     /\ map task_source (stream_tasks net clock st' reply)
        = base_urls (site_config_of st))
  /\ (keyword = "" ->
        search keyword st = (Ret (ErrorReply "keyword is required"), st)
        /\ stream_tasks net clock st' reply = []).
Proof.
  intros Hdump Hw reply st'. subst reply st'. split.
  - intros Hk. rewrite (search_started _ _ Hk). cbn [fst snd].
    rewrite (update_succeeds _ _ _ _ Hdump Hw). cbn [snd stream_tasks site_config_of].
    split; [reflexivity|]. apply SearchMore.create_tasks_sources.
  - intros ->. split; reflexivity.
Qed.

Lemma search_keeps_its_sources_witness :
  map task_source
      (stream_tasks Sample.net Sample.clock
         (snd (update_config Sample.working_disk Sample.other_config
                 (snd (search "kw" Sample.state0))))
         (fst (search "kw" Sample.state0)))
  = base_urls Sample.config.
Proof.
  refine (proj2 (proj1 (search_keeps_its_sources Sample.net Sample.clock
                          Sample.working_disk "kw" Sample.other_config
                          Sample.state0 "{}" _ _) _)).
  - reflexivity.
  - reflexivity.
  - discriminate.
Defined.

(** After an update that succeeds, the answer carries the posted
    configuration, [get_site_config] returns it, [config.json] holds its
    serialization, and posting the same configuration again changes
    nothing. *)
Theorem update_then_get (env : ConfigEnv) (config_data : SiteConfig)
    (st : AppState) (json : string) :
  model_dump_json env config_data = Ret json ->
  write_outcome env "config.json" json = Written ->
  let st' := snd (update_config env config_data st) in
  fst (update_config env config_data st)
  = Ret (mkReply "Configuration updated and saved successfully." config_data)
  /\ get_site_config st' = (Ret config_data, st')
  /\ config_file st' = Some json
  /\ update_config env config_data st' = update_config env config_data st.
Proof.
  intros Hdump Hw st'. subst st'.
  rewrite !(update_succeeds _ _ _ _ Hdump Hw). cbn [fst snd].
  repeat split.
Qed.

Lemma update_then_get_witness :
  get_site_config
    (snd (update_config Sample.working_disk Sample.other_config Sample.state0))
  = (Ret Sample.other_config,
     snd (update_config Sample.working_disk Sample.other_config Sample.state0)).
Proof.
  refine (proj1 (proj2 (update_then_get Sample.working_disk Sample.other_config
                          Sample.state0 "{}" _ _))); reflexivity.
Defined.

(** The file is opened only after the configuration has been
    serialized: when serializing raises, or when opening the file
    raises, neither [site_config] nor [config.json] changes.  When the
    write itself raises, [site_config] is kept but the file holds what
    was written until then. *)
Theorem failed_update_and_the_file
    (env : ConfigEnv) (config_data : SiteConfig) (st : AppState) (e : exn) :
  (model_dump_json env config_data = Raise e
   \/ (exists json, model_dump_json env config_data = Ret json
                    /\ write_outcome env "config.json" json = OpenRaises e) ->
   snd (update_config env config_data st) = st)
  /\ (forall json written,
        model_dump_json env config_data = Ret json ->
        write_outcome env "config.json" json = WriteRaises e written ->
        snd (update_config env config_data st)
        = mkAppState (site_config_of st) (Some written)).
Proof.
  unfold update_config, mtry, mbind, lift, write_file, set_site_config,
    get_site_config, mret.
  split.
  - intros [Hdump|(json & Hdump & Hw)]; rewrite Hdump; [reflexivity|].
    now rewrite Hw.
  - intros json written Hdump Hw. now rewrite Hdump, Hw.
Qed.

Lemma failed_update_and_the_file_witness :
  snd (update_config Sample.failing_disk Sample.new_config Sample.state0)
  = mkAppState (site_config_of Sample.state0) (Some "").
Proof.
  refine (proj2 (failed_update_and_the_file Sample.failing_disk Sample.new_config
                   Sample.state0 (OSError "No space left on device"))
            "{}" "" _ _); reflexivity.
Defined.

(** A search made after an update queries the posted sources when the
    update succeeded, and the sources of before when it failed, in
    whatever way. *)
Theorem update_then_search (env : ConfigEnv) (config_data : SiteConfig)
    (st : AppState) (keyword : string) :
  keyword <> "" ->
  let st' := snd (update_config env config_data st) in
  (forall reply, fst (update_config env config_data st) = Ret reply ->
     fst (search keyword st')
     = Ret (StreamingResponse keyword (base_urls config_data)))
  /\ (forall e, fst (update_config env config_data st) = Raise e ->
        fst (search keyword st')
        = Ret (StreamingResponse keyword (base_urls (site_config_of st)))).
Proof.
  intros Hk st'. subst st'. rewrite (search_started _ _ Hk). cbn [fst].
  destruct (ConfigClaims.update_config_cases env config_data st)
    as [(json & _ & _ & H)|(e0 & Hraise & Hkeep)].
  - rewrite H. cbn [fst snd site_config_of]. split; [reflexivity|discriminate].
  - rewrite Hraise, Hkeep. split; [discriminate|reflexivity].
Qed.

Lemma update_then_search_witness :
  fst (search "kw"
         (snd (update_config Sample.failing_disk Sample.new_config Sample.state0)))
  = Ret (StreamingResponse "kw" (base_urls (site_config_of Sample.state0))).
Proof.
  refine (proj2 (update_then_search Sample.failing_disk Sample.new_config
                   Sample.state0 "kw" _)
            (HTTPException 500 "Error updating config: No space left on device") _).
  - discriminate.
  - reflexivity.
Defined.

End EndpointFacts.
